(** * The weekly trend agent (agent.py): model and verified properties

    The script fetches two RSS feeds, builds a prompt, asks a text
    generation service for a JSON report (retrying once with a stricter
    prompt), and mails either the report or a diagnostic message.

    Python text is modelled as a list of code points, Python values that
    travel through [json] as a tree, and every call that leaves the process
    (feed parser, HTTP client, SMTP client, clock, process environment) as a
    question put to an explicit environment.  *)

From Stdlib Require Import String Ascii DecimalString.
From Stdlib Require Import ZArith NArith Lia Bool List.
Import ListNotations.

Set Implicit Arguments.
Set Warnings "-register-all".

(** ** Python text *)

Module Py.

(** A character is a Unicode code point; [str] is Python's immutable
    sequence of them. *)
Definition char := N.
Bind Scope N_scope with char.
Definition str := list char.

Definition code (a : ascii) : char := N_of_ascii a.

(** A literal of the source, written as a Rocq string. *)
Definition lit (s : string) : str := map code (list_ascii_of_string s).

(** The double quote, and literals that contain it: in [litq] a backquote
    stands for the double quote (no literal of the script has a backquote). *)
Definition dquote : char := 34%N.
Definition litq (s : string) : str :=
  map (fun a => if N.eqb (code a) 96 then dquote else code a)
      (list_ascii_of_string s).

Definition char_eqb (a b : char) : bool := N.eqb a b.
Arguments char_eqb (a b)%_N.

Fixpoint str_eqb (a b : str) : bool :=
  match a, b with
  | [], [] => true
  | x :: a', y :: b' => char_eqb x y && str_eqb a' b'
  | _, _ => false
  end.

(** [s.startswith(p)] *)
Fixpoint startswith (p s : str) : bool :=
  match p, s with
  | [], _ => true
  | x :: p', y :: s' => char_eqb x y && startswith p' s'
  | _ :: _, [] => false
  end.

(** [needle in s] *)
Fixpoint contains (needle s : str) : bool :=
  startswith needle s ||
  match s with
  | [] => false
  | _ :: s' => contains needle s'
  end.

(** [s.find(c)] for a one-character needle, as both call sites of the
    script have it: the least index holding [c], or -1. *)
Fixpoint find_from (c : char) (s : str) (i : Z) : Z :=
  match s with
  | [] => (-1)%Z
  | x :: r => if char_eqb x c then i else find_from c r (i + 1)%Z
  end.
Definition find (s : str) (c : char) : Z := find_from c s 0%Z.

(** [s.rfind(c)]: the greatest index holding [c], or -1. *)
Fixpoint rfind_from (c : char) (s : str) (i : Z) : Z :=
  match s with
  | [] => (-1)%Z
  | x :: r =>
      let j := rfind_from c r (i + 1)%Z in
      if Z.eqb j (-1) then (if char_eqb x c then i else (-1)%Z) else j
  end.
Definition rfind (s : str) (c : char) : Z := rfind_from c s 0%Z.

(** Slice bounds as Python normalises them: a negative bound counts from
    the end, and every bound is clamped to [0, len]. *)
Definition clamp (len i : Z) : Z :=
  if (i <? 0)%Z then Z.max 0 (i + len) else Z.min i len.

(** [l[lo:hi]] *)
Definition slice (A : Type) (l : list A) (lo hi : Z) : list A :=
  let n := Z.of_nat (length l) in
  let a := clamp n lo in
  let b := clamp n hi in
  firstn (Z.to_nat (b - a)) (skipn (Z.to_nat a) l).

(** [l[:hi]] *)
Definition slice_to (A : Type) (l : list A) (hi : Z) : list A := slice l 0 hi.

(** [str(n)] for an integer. *)
Definition str_of_Z (z : Z) : str := lit (NilZero.string_of_int (Z.to_int z)).
Definition str_of_nat (n : nat) : str := str_of_Z (Z.of_nat n).

(** [s.count(c, 0, stop)] on the first [stop] characters. *)
Definition count_before (c : char) (s : str) (stop : nat) : nat :=
  length (filter (char_eqb c) (firstn stop s)).

End Py.
Import Py.

(** ** Python values and the [json] module *)

Module Json.

(** The values [json.loads] builds and [json.dumps] prints.  A float is kept
    as the number token it was read from: binary floating point is outside
    this model.  A dict is its list of items in insertion order. *)
Inductive value : Type :=
| VNone
| VBool (b : bool)
| VInt (z : Z)
| VFloat (tok : str)
| VStr (s : str)
| VList (l : list value)
| VDict (d : list (str * value)).

Section Dict.
Variable V : Type.

(** [d[k] = v]: an existing key keeps its place, a new key goes last. *)
Fixpoint dict_set (k : str) (v : V) (d : list (str * V)) : list (str * V) :=
  match d with
  | [] => [(k, v)]
  | (k', v') :: r =>
      if str_eqb k' k then (k', v) :: r else (k', v') :: dict_set k v r
  end.

(** [dict(pairs)] *)
Definition dict_of_pairs (pairs : list (str * V)) : list (str * V) :=
  fold_left (fun d kv => dict_set (fst kv) (snd kv) d) pairs [].

(** [d.get(k)] as an option. *)
Fixpoint dict_get (k : str) (d : list (str * V)) : option V :=
  match d with
  | [] => None
  | (k', v) :: r => if str_eqb k' k then Some v else dict_get k r
  end.
End Dict.

(** *** Decoder

    [json.loads] as CPython decodes a [str]: the grammar, the blanks it
    skips, the order in which a dict takes its keys, and the texts of its
    errors.  The decoder works on the text that is still to be read.  A
    position is kept as the number of characters from it to the end of the
    document, so that [len(doc) - at_rest] is the index Python reports. *)
Inductive scan (A : Type) : Type :=
| Scanned (a : A) (rest : str)
| Stop (at_rest : nat)                (* StopIteration(idx) *)
| Bad (msg : str) (at_rest : nat)     (* JSONDecodeError(msg, doc, idx) *)
| Exhausted.                          (* the recursion budget ran out *)
Arguments Stop {A} at_rest.
Arguments Bad {A} msg at_rest.
Arguments Exhausted {A}.

Definition is_ws (c : char) : bool :=
  char_eqb c 32 || char_eqb c 9 || char_eqb c 10 || char_eqb c 13.

Fixpoint skip_ws (s : str) : str :=
  match s with
  | c :: r => if is_ws c then skip_ws r else s
  | [] => []
  end.

Definition is_digit (c : char) : bool := N.leb 48 c && N.leb c 57.

Definition hex_digit (c : char) : option N :=
  if N.leb 48 c && N.leb c 57 then Some (c - 48)%N
  else if N.leb 97 c && N.leb c 102 then Some (c - 87)%N
  else if N.leb 65 c && N.leb c 70 then Some (c - 55)%N
  else None.

Definition hex4 (a b c d : char) : option N :=
  match hex_digit a, hex_digit b, hex_digit c, hex_digit d with
  | Some x, Some y, Some z, Some w => Some (((x * 16 + y) * 16 + z) * 16 + w)%N
  | _, _, _, _ => None
  end.

Definition is_high_surrogate (u : N) : bool := N.leb 55296 u && N.leb u 56319.
Definition is_low_surrogate (u : N) : bool := N.leb 56320 u && N.leb u 57343.
Definition join_surrogates (hi lo : N) : N :=
  (65536 + N.lor (N.shiftl (hi - 55296) 10) (lo - 56320))%N.

(** The one-character escapes after a backslash. *)
Definition unescape (c : char) : option char :=
  if char_eqb c dquote then Some dquote
  else if char_eqb c 92 then Some 92%N
  else if char_eqb c 47 then Some 47%N
  else if char_eqb c 98 then Some 8%N
  else if char_eqb c 102 then Some 12%N
  else if char_eqb c 110 then Some 10%N
  else if char_eqb c 114 then Some 13%N
  else if char_eqb c 116 then Some 9%N
  else None.

Definition msg_unterminated : str := lit "Unterminated string starting at".
Definition msg_control : str := lit "Invalid control character at".
Definition msg_escape : str := lit "Invalid \escape".
Definition msg_uescape : str := lit "Invalid \uXXXX escape".
Definition msg_value : str := lit "Expecting value".
Definition msg_name : str := lit "Expecting property name enclosed in double quotes".
Definition msg_colon : str := lit "Expecting ':' delimiter".
Definition msg_comma : str := lit "Expecting ',' delimiter".
Definition msg_extra : str := lit "Extra data".
Definition msg_bom : str := lit "Unexpected UTF-8 BOM (decode using utf-8-sig)".

(** [scanstring]: the text after an opening quote, in strict mode.  [begin]
    locates the opening quote; [acc] is what has been decoded so far. *)
Fixpoint scanstring (begin : nat) (acc : str) (s : str) {struct s} : scan str :=
  match s with
  | [] => Bad msg_unterminated begin
  | c :: r =>
      if char_eqb c dquote then Scanned acc r
      else if char_eqb c 92 then
        match r with
        | [] => Bad msg_unterminated begin
        | esc :: r1 =>
            if char_eqb esc 117 then
              match r1 with
              | h1 :: h2 :: h3 :: h4 :: ((_ :: _) as r2) =>
                  match hex4 h1 h2 h3 h4 with
                  | None => Bad msg_uescape (length r)
                  | Some uni =>
                      match r2 with
                      | b :: u :: ((g1 :: g2 :: g3 :: g4 :: ((_ :: _) as r4)) as r3) =>
                          if is_high_surrogate uni && char_eqb b 92 && char_eqb u 117 then
                            match hex4 g1 g2 g3 g4 with
                            | None => Bad msg_uescape (S (length r3))
                            | Some uni2 =>
                                if is_low_surrogate uni2
                                then scanstring begin (acc ++ [join_surrogates uni uni2]) r4
                                else scanstring begin (acc ++ [uni]) r2
                            end
                          else scanstring begin (acc ++ [uni]) r2
                      | _ => scanstring begin (acc ++ [uni]) r2
                      end
                  end
              | _ => Bad msg_uescape (length r)
              end
            else
              match unescape esc with
              | Some ch => scanstring begin (acc ++ [ch]) r1
              | None => Bad msg_escape (length s)
              end
        end
      else if N.leb c 31 then Bad msg_control (length s)
      else scanstring begin (acc ++ [c]) r
  end.

(** Numbers: an optional minus sign, then either a single zero or a
    nonzero digit followed by digits; then an optional fraction (a dot and
    at least one digit); then an optional exponent (e or E, an optional
    sign, at least one digit).  A part that does not match in full is left
    unread. *)
Fixpoint span_digits (s : str) : str * str :=
  match s with
  | c :: r =>
      if is_digit c then let (d, t) := span_digits r in (c :: d, t) else ([], s)
  | [] => ([], [])
  end.

Definition match_integer (s : str) : option (str * str) :=
  let digits (sign s1 : str) :=
    match s1 with
    | c :: r =>
        if char_eqb c 48 then Some (sign ++ [c], r)
        else if is_digit c then
          let (d, t) := span_digits r in Some (sign ++ c :: d, t)
        else None
    | [] => None
    end in
  match s with
  | c :: r => if char_eqb c 45 then digits [c] r else digits [] s
  | [] => None
  end.

Definition match_frac (s : str) : str * str :=
  match s with
  | c :: r =>
      if char_eqb c 46 then
        match span_digits r with
        | ([], _) => ([], s)
        | (d, t) => (c :: d, t)
        end
      else ([], s)
  | [] => ([], s)
  end.

Definition match_exp (s : str) : str * str :=
  match s with
  | c :: r =>
      if char_eqb c 101 || char_eqb c 69 then
        let (sign, r1) :=
          match r with
          | x :: r' => if char_eqb x 45 || char_eqb x 43 then ([x], r') else ([], r)
          | [] => ([], r)
          end in
        match span_digits r1 with
        | ([], _) => ([], s)
        | (d, t) => (c :: sign ++ d, t)
        end
      else ([], s)
  | [] => ([], s)
  end.

(** [int(tok)] for a token matched by [match_integer]. *)
Definition digits_value (d : str) : Z :=
  fold_left (fun acc c => (acc * 10 + (Z.of_N c - 48))%Z) d 0%Z.
Definition int_of_token (tok : str) : Z :=
  match tok with
  | c :: d => if char_eqb c 45 then (- digits_value d)%Z else digits_value tok
  | [] => 0%Z
  end.

Definition match_number (s : str) : option (value * str) :=
  match match_integer s with
  | None => None
  | Some (integer, r1) =>
      let (frac, r2) := match_frac r1 in
      let (exp, r3) := match_exp r2 in
      match frac, exp with
      | [], [] => Some (VInt (int_of_token integer), r3)
      | _, _ => Some (VFloat (integer ++ frac ++ exp), r3)
      end
  end.

Definition match_word (w : string) (v : value) (s : str) : option (value * str) :=
  if startswith (lit w) s then Some (v, skipn (length (lit w)) s) else None.

(** What [scan_once] does when the next character opens neither a string,
    an object nor an array. *)
Definition scan_atom (s : str) : scan value :=
  let first (l : list (option (value * str))) :=
    fold_right (fun o k => match o with Some x => Some x | None => k end) None l in
  match first [ match_word "null" VNone s;
                match_word "true" (VBool true) s;
                match_word "false" (VBool false) s;
                match_number s;
                match_word "NaN" (VFloat (lit "NaN")) s;
                match_word "Infinity" (VFloat (lit "Infinity")) s;
                match_word "-Infinity" (VFloat (lit "-Infinity")) s ] with
  | Some (v, rest) => Scanned v rest
  | None => Stop (length s)
  end.

(** [scan_once] with the object and array loops it recurses through. *)
Fixpoint scan_once (fuel : nat) (s : str) {struct fuel} : scan value :=
  match fuel with
  | O => Exhausted
  | S fuel' =>
      match s with
      | [] => Stop 0
      | c :: r =>
          if char_eqb c dquote then
            match scanstring (length s) [] r with
            | Scanned k rest => Scanned (VStr k) rest
            | Stop n => Stop n
            | Bad m n => Bad m n
            | Exhausted => Exhausted
            end
          else if char_eqb c 123 then
            match skip_ws r with
            | c1 :: r1 =>
                if char_eqb c1 125 then Scanned (VDict []) r1
                else object_loop fuel' [] (skip_ws r)
            | [] => object_loop fuel' [] []
            end
          else if char_eqb c 91 then
            match skip_ws r with
            | c1 :: r1 =>
                if char_eqb c1 93 then Scanned (VList []) r1
                else array_loop fuel' [] (skip_ws r)
            | [] => array_loop fuel' [] []
            end
          else scan_atom s
      end
  end

with object_loop (fuel : nat) (pairs : list (str * value)) (s : str)
       {struct fuel} : scan value :=
  match fuel with
  | O => Exhausted
  | S fuel' =>
      match s with
      | q :: k0 =>
          if char_eqb q dquote then
            match scanstring (length s) [] k0 with
            | Scanned key r1 =>
                match skip_ws r1 with
                | c :: r2 =>
                    if char_eqb c 58 then
                      match scan_once fuel' (skip_ws r2) with
                      | Scanned v r4 =>
                          let pairs' := pairs ++ [(key, v)] in
                          match skip_ws r4 with
                          | c2 :: r5 =>
                              if char_eqb c2 125
                              then Scanned (VDict (dict_of_pairs pairs')) r5
                              else if char_eqb c2 44
                              then object_loop fuel' pairs' (skip_ws r5)
                              else Bad msg_comma (length (skip_ws r4))
                          | [] => Bad msg_comma 0
                          end
                      | Stop n => Stop n
                      | Bad m n => Bad m n
                      | Exhausted => Exhausted
                      end
                    else Bad msg_colon (length (skip_ws r1))
                | [] => Bad msg_colon 0
                end
            | Stop n => Stop n
            | Bad m n => Bad m n
            | Exhausted => Exhausted
            end
          else Bad msg_name (length s)
      | [] => Bad msg_name 0
      end
  end

with array_loop (fuel : nat) (values : list value) (s : str)
       {struct fuel} : scan value :=
  match fuel with
  | O => Exhausted
  | S fuel' =>
      match scan_once fuel' s with
      | Scanned v r1 =>
          let values' := values ++ [v] in
          match skip_ws r1 with
          | c :: r2 =>
              if char_eqb c 93 then Scanned (VList values') r2
              else if char_eqb c 44 then array_loop fuel' values' (skip_ws r2)
              else Bad msg_comma (length (skip_ws r1))
          | [] => Bad msg_comma 0
          end
      | Stop n => Stop n
      | Bad m n => Bad m n
      | Exhausted => Exhausted
      end
  end.

(** [str(e)] of a [JSONDecodeError(msg, doc, pos)]. *)
Definition errmsg (m : str) (doc : str) (pos : nat) : str :=
  let lineno := S (count_before 10 doc pos) in
  let colno := (Z.of_nat pos - rfind (firstn pos doc) 10)%Z in
  m ++ lit ": line " ++ str_of_nat lineno ++ lit " column " ++ str_of_Z colno
    ++ lit " (char " ++ str_of_nat pos ++ lit ")".

Definition msg_recursion : str := lit "maximum recursion depth exceeded".

(** [json.loads(s)] for a [str]: the value, or the text of the exception.
    The budget handed to [scan_once] is never used up ([loads_budget]
    below); the interpreter's own recursion limit is not modelled. *)
Definition loads (s : str) : value + str :=
  let fail (m : str) (at_rest : nat) := inr (errmsg m s (length s - at_rest)) in
  if startswith [65279%N] s then fail msg_bom (length s)
  else
    match scan_once (S (2 * length s)) (skip_ws s) with
    | Scanned v rest =>
        match skip_ws rest with
        | [] => inl v
        | _ :: _ => fail msg_extra (length (skip_ws rest))
        end
    | Stop n => fail msg_value n
    | Bad m n => fail m n
    | Exhausted => inr msg_recursion
    end.

End Json.
Import Json.

(** *** Encoder *)

Module Encoder.

Section WithFloats.
(** The text the encoder prints for the float read from a number token
    (Python's [float.__repr__], or NaN and Infinity spelled out). *)
Variable float_repr : str -> str.

Definition hex_char (n : N) : char := if N.ltb n 10 then (48 + n)%N else (87 + n)%N.

(** One character of a string under [ensure_ascii=False]. *)
Definition escape_char (c : char) : str :=
  if char_eqb c dquote then [92; dquote]%N
  else if char_eqb c 92 then [92; 92]%N
  else if char_eqb c 10 then [92; 110]%N
  else if char_eqb c 13 then [92; 114]%N
  else if char_eqb c 9 then [92; 116]%N
  else if char_eqb c 8 then [92; 98]%N
  else if char_eqb c 12 then [92; 102]%N
  else if N.ltb c 32 then lit "\u00" ++ [hex_char (c / 16); hex_char (c mod 16)]
  else [c].

Definition encode_basestring (s : str) : str :=
  [dquote] ++ flat_map escape_char s ++ [dquote].

Definition join (sep : str) (parts : list str) : str :=
  match parts with
  | [] => []
  | p :: ps => p ++ flat_map (fun q => sep ++ q) ps
  end.

(** The encoder at nesting depth [level]; [indent] is the [indent=]
    argument.  Without it items are separated by a comma and a space, with
    it by a comma and a line break. *)
Fixpoint encode (indent : option nat) (level : nat) (v : value) : str :=
  let newline (lv : nat) : str :=
    match indent with
    | Some n => 10%N :: repeat 32%N (n * lv)
    | None => []
    end in
  let item_separator : str :=
    match indent with Some _ => lit "," | None => lit ", " end in
  match v with
  | VNone => lit "null"
  | VBool true => lit "true"
  | VBool false => lit "false"
  | VInt z => str_of_Z z
  | VFloat tok => float_repr tok
  | VStr s => encode_basestring s
  | VList [] => lit "[]"
  | VList l =>
      lit "[" ++ newline (S level)
        ++ join (item_separator ++ newline (S level))
                (map (encode indent (S level)) l)
        ++ newline level ++ lit "]"
  | VDict [] => lit "{}"
  | VDict d =>
      lit "{" ++ newline (S level)
        ++ join (item_separator ++ newline (S level))
                (map (fun kv : str * value => let (k, x) := kv in
                        encode_basestring k ++ lit ": " ++ encode indent (S level) x) d)
        ++ newline level ++ lit "}"
  end.

(** [json.dumps(obj, ensure_ascii=False)] and
    [json.dumps(obj, ensure_ascii=False, indent=n)]. *)
Definition dumps (obj : value) : str := encode None 0 obj.
Definition dumps_indent (n : nat) (obj : value) : str := encode (Some n) 0 obj.
End WithFloats.

End Encoder.
Import Encoder.

(** ** The process and its environment *)

(** Exceptions the script can meet.  [Foreign] stands for whatever a library
    treated as opaque raises. *)
Inductive exn : Type :=
| KeyError (key : value)
| IndexError
| TypeError
| AttributeError
| ValueError
| HTTPError (status : Z)
| JSONDecodeError (text : str)
| Foreign (text : str).

(** The outcome of a call. *)
Inductive reply (A : Type) : Type :=
| Returns (a : A)
| Raises (e : exn).
Arguments Raises {A} e.

(** A feed as [feedparser.parse] hands it back: the entries it could read,
    and the [bozo] flag it sets when fetching or parsing met a fault.  An
    entry attribute may be missing. *)
Record entry : Type := {
  title : option str;
  link : option str;
  published : option str
}.
Record feed : Type := {
  bozo : bool;
  entries : list entry
}.

(** The answer of the generation service to a POST: its status, and its
    body as [r.json()] reads it. *)
Record response : Type := {
  status_code : Z;
  text : str
}.

(** One mail as [send_email] puts it together, and hands to the mail
    libraries: building the MIME text, connecting, STARTTLS, login and
    sendmail are one step of the environment, which goes through or raises. *)
Record mail : Type := {
  smtp_host : str;
  smtp_port : Z;
  smtp_user : str;
  smtp_pass : str;
  from_email : str;
  to_email : str;
  mail_subject : value;
  mail_body : value
}.

(** [datetime.now(SL_TZ)]: a wall-clock reading in the fixed +05:30 zone. *)
Record datetime : Type := {
  year : nat;
  month : nat;
  day : nat;
  hour : nat;
  minute : nat;
  second : nat
}.

(** What a run does, in order: calls and returns of the Generator, calls of
    the Notifier, and messages the mail server accepted. *)
Inductive event : Type :=
| EvGenerate (prompt : str)
| EvGenerated (out : value)
| EvSendEmail (subject body : value)
| EvDelivered (m : mail).

(** Everything outside the process.  The three services answer a request
    knowing what has happened so far, so successive calls may be answered
    differently. *)
Record world : Type := {
  environ : list (str * str);
  clock : datetime;
  feedparser_parse : list event -> str -> reply feed;
  requests_post : list event -> str -> value -> Z -> reply response;
  smtp_transaction : list event -> mail -> option exn
}.

(** A computation reads the world, extends the history, and returns or
    raises. *)
Definition M (A : Type) : Type := world -> list event -> reply A * list event.

Definition ret (A : Type) (a : A) : M A := fun _ h => (Returns a, h).
Definition raise (A : Type) (e : exn) : M A := fun _ h => (Raises e, h).
Arguments raise {A} e.
Definition bind (A B : Type) (m : M A) (k : A -> M B) : M B :=
  fun w h =>
    match m w h with
    | (Returns a, h') => k a w h'
    | (Raises e, h') => (Raises e, h')
    end.
Definition lift (A : Type) (r : reply A) : M A := fun _ h => (r, h).
Definition log (e : event) : M unit := fun _ h => (Returns tt, h ++ [e]).

Notation "x <- m ;; k" := (bind m (fun x => k))
  (at level 61, m at next level, right associativity).
Notation "m ;;; k" := (bind m (fun _ => k))
  (at level 61, right associativity).

(** [os.environ[name]], and [os.environ.get(name, default)] which is also
    [os.getenv(name, default)]. *)
Definition environ_item (name : str) : M str :=
  fun w h =>
    match dict_get name (environ w) with
    | Some v => (Returns v, h)
    | None => (Raises (KeyError (VStr name)), h)
    end.
Definition environ_get (name default : str) : M str :=
  fun w h =>
    match dict_get name (environ w) with
    | Some v => (Returns v, h)
    | None => (Returns default, h)
    end.

(** [int(s)]: surrounding blanks, an optional sign, decimal digits with
    single underscores between them (ASCII only). *)
Definition is_space (c : char) : bool :=
  char_eqb c 32 || (N.leb 9 c && N.leb c 13) || (N.leb 28 c && N.leb c 31).

Fixpoint lstrip (s : str) : str :=
  match s with
  | c :: r => if is_space c then lstrip r else s
  | [] => []
  end.
Definition strip (s : str) : str := rev (lstrip (rev (lstrip s))).

Fixpoint int_digits (acc : Z) (after_digit : bool) (s : str) : option Z :=
  match s with
  | [] => if after_digit then Some acc else None
  | c :: r =>
      if is_digit c then int_digits (acc * 10 + (Z.of_N c - 48))%Z true r
      else if char_eqb c 95 && after_digit then
        match r with
        | d :: _ => if is_digit d then int_digits acc false r else None
        | [] => None
        end
      else None
  end.

Definition int (s : str) : reply Z :=
  let of_option (sign : Z) (o : option Z) :=
    match o with
    | Some z => Returns (sign * z)%Z
    | None => Raises ValueError
    end in
  match strip s with
  | c :: r =>
      if char_eqb c 45 then of_option (-1)%Z (int_digits 0 false r)
      else if char_eqb c 43 then of_option 1%Z (int_digits 0 false r)
      else of_option 1%Z (int_digits 0 false (c :: r))
  | [] => Raises ValueError
  end.

(** Subscripting a value: [v[key]] with a text key, and [v[0]]. *)
Definition getitem (v : value) (key : str) : reply value :=
  match v with
  | VDict d =>
      match dict_get key d with
      | Some x => Returns x
      | None => Raises (KeyError (VStr key))
      end
  | _ => Raises TypeError
  end.

Definition getitem0 (v : value) : reply value :=
  match v with
  | VList (x :: _) => Returns x
  | VList [] => Raises IndexError
  | VStr (c :: _) => Returns (VStr [c])
  | VStr [] => Raises IndexError
  | VDict _ => Raises (KeyError (VInt 0))
  | _ => Raises TypeError
  end.

(** [obj.get(key, default)]: only a dict has the method. *)
Definition get (obj : value) (key : str) (default : value) : reply value :=
  match obj with
  | VDict d =>
      match dict_get key d with
      | Some x => Returns x
      | None => Returns default
      end
  | _ => Raises AttributeError
  end.

(** [getattr(e, name, "")] on a feed entry. *)
Definition getattr (field : option str) (default : str) : str :=
  match field with
  | Some v => v
  | None => default
  end.

(** [d.strftime("%Y-%m-%d")]; years of a running clock have four digits. *)
Definition zero_pad (width : nat) (s : str) : str :=
  repeat 48%N (width - length s) ++ s.
Definition strftime_Ymd (d : datetime) : str :=
  zero_pad 4 (str_of_nat (year d)) ++ lit "-"
    ++ zero_pad 2 (str_of_nat (month d)) ++ lit "-"
    ++ zero_pad 2 (str_of_nat (day d)).

(** ** The script *)

Definition GOOGLE_TRENDS_DAILY_LK : str :=
  lit "https://trends.google.com/trends/trendingsearches/daily/rss?geo=LK".
Definition GOOGLE_NEWS_LK : str :=
  lit "https://news.google.com/rss?hl=en-LK&gl=LK&ceid=LK:en".

(** The dict [fetch_rss] builds for one entry. *)
Definition feed_item (e : entry) : value :=
  VDict [ (lit "title", VStr (getattr (title e) []));
          (lit "link", VStr (getattr (link e) []));
          (lit "published", VStr (getattr (published e) [])) ].

Definition fetch_rss (url : str) (max_items : Z) : M (list value) :=
  fun w h =>
    match feedparser_parse w h url with
    | Returns f =>
        (Returns (fold_left (fun out e => out ++ [feed_item e])
                            (slice_to (entries f) max_items) []), h)
    | Raises e => (Raises e, h)
    end.

(** The [url] and the [payload] of a generation request. *)
Definition generate_url (model api_key : str) : str :=
  lit "https://generativelanguage.googleapis.com/v1beta/models/"
    ++ model ++ lit ":generateContent?key=" ++ api_key.

Definition generate_payload (prompt : str) : value :=
  VDict [ (lit "contents",
           VList [VDict [(lit "parts", VList [VDict [(lit "text", VStr prompt)]])]]);
          (lit "generationConfig",
           VDict [ (lit "temperature", VFloat (lit "0.6"));
                   (lit "maxOutputTokens", VInt 2500) ]) ].

(** [r.raise_for_status()] *)
Definition raise_for_status (r : response) : M unit :=
  if (400 <=? status_code r)%Z && (status_code r <? 600)%Z
  then raise (HTTPError (status_code r))
  else ret tt.

(** [r.json()] *)
Definition response_json (r : response) : M value :=
  lift (match loads (text r) with
        | inl v => Returns v
        | inr e => Raises (JSONDecodeError e)
        end).

Definition gemini_generate (prompt : str) : M value :=
  log (EvGenerate prompt) ;;;
  api_key <- environ_item (lit "GEMINI_API_KEY") ;;
  model <- environ_get (lit "GEMINI_MODEL") (lit "gemini-1.5-flash") ;;
  let url := generate_url model api_key in
  let payload := generate_payload prompt in
  r <- (fun w h => (requests_post w h url payload 60%Z, h)) ;;
  raise_for_status r ;;;
  data <- response_json r ;;
  candidates <- lift (getitem data (lit "candidates")) ;;
  candidate <- lift (getitem0 candidates) ;;
  content <- lift (getitem candidate (lit "content")) ;;
  parts <- lift (getitem content (lit "parts")) ;;
  part <- lift (getitem0 parts) ;;
  out <- lift (getitem part (lit "text")) ;;
  log (EvGenerated out) ;;;
  ret out.

(** The dict [safe_extract_json] returns, keyed by its [ok] entry. *)
Inductive GenerationResult : Type :=
| Success (report : value)
| Failure (raw : str) (error : str).

Definition ok (p : GenerationResult) : bool :=
  match p with
  | Success _ => true
  | Failure _ _ => false
  end.

Definition safe_extract_json (text : str) : GenerationResult :=
  let start := find text (code "{") in
  let end_ := rfind text (code "}") in
  if Z.eqb start (-1) || Z.eqb end_ (-1) then
    Failure text (lit "No JSON detected")
  else
    match loads (slice text start (end_ + 1)) with
    | inl report => Success report
    | inr e => Failure text (lit "JSON parse failed: " ++ e)
    end.

(** The call as [main] makes it, on whatever the Generator returned: a value
    that is not text has no [find]. *)
Definition call_safe_extract_json (raw : value) : M GenerationResult :=
  match raw with
  | VStr text => ret (safe_extract_json text)
  | _ => raise AttributeError
  end.

Definition send_email (subject body : value) : M unit :=
  log (EvSendEmail subject body) ;;;
  smtp_host <- environ_item (lit "SMTP_HOST") ;;
  port_text <- environ_get (lit "SMTP_PORT") (lit "587") ;;
  smtp_port <- lift (int port_text) ;;
  smtp_user <- environ_item (lit "SMTP_USER") ;;
  smtp_pass <- environ_item (lit "SMTP_PASS") ;;
  to_email <- environ_item (lit "TO_EMAIL") ;;
  from_email <- environ_get (lit "FROM_EMAIL") smtp_user ;;
  let m := {| smtp_host := smtp_host; smtp_port := smtp_port;
              smtp_user := smtp_user; smtp_pass := smtp_pass;
              from_email := from_email; to_email := to_email;
              mail_subject := subject; mail_body := body |} in
  fun w h =>
    match smtp_transaction w h m with
    | None => (Returns tt, h ++ [EvDelivered m])
    | Some e => (Raises e, h)
    end.

(** The literal parts of the prompt: the text before the date, the text
    between the date and the input signals, and the final line break. *)
Definition prompt_head : str := litq "
You are a Sri Lanka trend analyst and marketing strategist.

Brands
Group A combined: Studio Nalini + Nalini e shop
Group B separate: Nalini book shop

Goal
Create a Monday report of trends to follow for the coming week in Sri Lanka.

Scoring each trend 0 to 25
Growth 0-5
Sri Lanka relevance 0-5
Brand fit 0-5
Feasibility 0-5 (phone-friendly content)
Risk 0-5 (5 is safest)
Only FOLLOW if total >= 18
Avoid politics, tragedy, hate, misinformation.

Output ONLY valid JSON with this schema:
{
  `date`: `".

Definition prompt_schema : str := litq "`,
  `summary`: ``,
  `trends`: [
    {
      `name`: ``,
      `why_trending`: ``,
      `signals`: ``,
      `score`: {`growth`:0,`sl_relevance`:0,`brand_fit`:0,`feasibility`:0,`risk`:0,`total`:0},
      `decision`: `FOLLOW or SKIP`,
      `groupA_campaign`: {
        `big_idea`: ``,
        `post_ideas`: [``,``,``],
        `video_ideas`: [
          {`hook`:``,`plot`:``,`script`:``,`shot_list`:[``,``,``],`caption`:``,`hashtags`:``},
          {`hook`:``,`plot`:``,`script`:``,`shot_list`:[``,``,``],`caption`:``,`hashtags`:``}
        ],
        `weekly_calendar`: [
          {`day`:`Mon`,`content`:``}, {`day`:`Tue`,`content`:``}, {`day`:`Wed`,`content`:``},
          {`day`:`Thu`,`content`:``}, {`day`:`Fri`,`content`:``}, {`day`:`Sat`,`content`:``}, {`day`:`Sun`,`content`:``}
        ],
        `kpis`: {`reach`:``,`saves`:``,`clicks`:``,`dm_inquiries`:``}
      },
      `groupB_campaign`: {
        `big_idea`: ``,
        `post_ideas`: [``,``,``],
        `video_ideas`: [
          {`hook`:``,`plot`:``,`script`:``,`shot_list`:[``,``,``],`caption`:``,`hashtags`:``},
          {`hook`:``,`plot`:``,`script`:``,`shot_list`:[``,``,``],`caption`:``,`hashtags`:``}
        ],
        `weekly_calendar`: [
          {`day`:`Mon`,`content`:``}, {`day`:`Tue`,`content`:``}, {`day`:`Wed`,`content`:``},
          {`day`:`Thu`,`content`:``}, {`day`:`Fri`,`content`:``}, {`day`:`Sat`,`content`:``}, {`day`:`Sun`,`content`:``}
        ],
        `kpis`: {`reach`:``,`saves`:``,`store_visits`:``,`calls`:``}
      }
    }
  ],
  `email_subject`: ``,
  `email_body`: ``
}

Input signals:
".

Definition prompt_tail : str := litq "
".

Definition strict_prefix : str :=
  lit "Return ONLY JSON. No markdown. No extra text.

".

Definition error_subject : str := lit "Weekly Trend Agent ERROR (JSON parsing failed)".
Definition default_subject : str := lit "Weekly Sri Lanka Trend Report".

Section Script.
Variable float_repr : str -> str.

Definition build_prompt (trends_daily news : list value) : M str :=
  fun w h =>
    let today := strftime_Ymd (clock w) in
    let input_blob :=
      VDict [ (lit "date", VStr today);
              (lit "google_trends_lk_daily", VList trends_daily);
              (lit "google_news_lk", VList news) ] in
    (Returns (prompt_head ++ today ++ prompt_schema
                ++ dumps float_repr input_blob ++ prompt_tail), h).

(** The body of the debug mail. *)
Definition error_body (error raw : str) : str :=
  lit "Error: " ++ error ++ lit "

Raw output:
" ++ slice_to raw 8000.

Definition main : M unit :=
  (* Collect signals (fault tolerant) *)
  trends_daily <- fetch_rss GOOGLE_TRENDS_DAILY_LK 40 ;;
  news <- fetch_rss GOOGLE_NEWS_LK 30 ;;
  prompt <- build_prompt trends_daily news ;;
  (* Gemini attempt 1 *)
  raw <- gemini_generate prompt ;;
  parsed <- call_safe_extract_json raw ;;
  (* Gemini attempt 2 if JSON fails (more strict) *)
  parsed <- (if negb (ok parsed) then
               let strict_prompt := strict_prefix ++ prompt in
               raw2 <- gemini_generate strict_prompt ;;
               call_safe_extract_json raw2
             else ret parsed) ;;
  (* If still fails, send debug email *)
  match parsed with
  | Failure raw error =>
      send_email (VStr error_subject) (VStr (error_body error raw))
  | Success report =>
      subject <- lift (get report (lit "email_subject") (VStr default_subject)) ;;
      body <- lift (get report (lit "email_body")
                      (VStr (dumps_indent float_repr 2 report))) ;;
      send_email subject body
  end.

(** A whole run, from an empty history. *)
Definition run (w : world) : reply unit * list event := main w [].
End Script.

(** ** Observations on a history *)

Definition generate_calls (h : list event) : list str :=
  flat_map (fun e => match e with EvGenerate p => [p] | _ => [] end) h.
Definition generated (h : list event) : list value :=
  flat_map (fun e => match e with EvGenerated v => [v] | _ => [] end) h.
Definition send_calls (h : list event) : list (value * value) :=
  flat_map (fun e => match e with EvSendEmail s b => [(s, b)] | _ => [] end) h.
Definition delivered (h : list event) : list mail :=
  flat_map (fun e => match e with EvDelivered m => [m] | _ => [] end) h.

(** ** Sample environments *)

Module Samples.

Definition float_text (tok : str) : str := tok.

Definition environ_full : list (str * str) :=
  [ (lit "GEMINI_API_KEY", lit "k");
    (lit "SMTP_HOST", lit "smtp.example.org");
    (lit "SMTP_USER", lit "agent@example.org");
    (lit "SMTP_PASS", lit "secret");
    (lit "TO_EMAIL", lit "owner@example.org") ].

Definition monday : datetime :=
  {| year := 2025; month := 3; day := 10; hour := 6; minute := 0; second := 0 |}.
Definition monday_later : datetime :=
  {| year := 2025; month := 3; day := 10; hour := 6; minute := 0; second := 1 |}.

Definition entry1 : entry :=
  {| title := Some (lit "Cricket final"); link := Some (lit "https://example.org/1");
     published := None |}.
Definition entry2 : entry :=
  {| title := Some (lit "New year sales"); link := None; published := Some (lit "Mon") |}.
Definition entry3 : entry :=
  {| title := None; link := None; published := None |}.

Definition healthy_feed : feed := {| bozo := false; entries := [entry1; entry2; entry3] |}.
(** A feed the parser flagged as faulty and still read one entry from. *)
Definition faulty_feed : feed := {| bozo := true; entries := [entry1] |}.

(** The body of a well-formed answer of the service carrying [out]. *)
Definition service_body (out : str) : str :=
  dumps float_text
    (VDict [(lit "candidates",
             VList [VDict [(lit "content",
                            VDict [(lit "parts", VList [VDict [(lit "text", VStr out)]])])]])]).

(** A service that answers the n-th generation call with the n-th text of
    [outs] and with status 503 once they are used up. *)
Definition service (outs : list str) (h : list event) (url : str) (payload : value)
    (timeout : Z) : reply response :=
  match nth_error outs (length (generate_calls h) - 1) with
  | Some out => Returns {| status_code := 200; text := service_body out |}
  | None => Returns {| status_code := 503; text := [] |}
  end.

Definition world_at (now : datetime) (outs : list str) : world :=
  {| environ := environ_full;
     clock := now;
     feedparser_parse := fun _ _ => Returns healthy_feed;
     requests_post := service outs;
     smtp_transaction := fun _ _ => None |}.

Definition world_of (outs : list str) : world := world_at monday outs.

Definition good_output : str :=
  litq "Here is the report: {`email_subject`: `Week 11`, `email_body`: `Follow cricket.`} Thanks!".
Definition bad_output : str := lit "Sorry, I cannot help with that.".
Definition reversed_output : str := lit "} then {".
Definition prefixed_output : str := litq "prefix {`a`:1} suffix".

End Samples.

(** ** Vocabulary of the properties *)

(** [c] stands at index [i] of [s] and nowhere before it. *)
Definition first_at (c : char) (s : str) (i : nat) : Prop :=
  nth_error s i = Some c /\ forall k, (k < i)%nat -> nth_error s k <> Some c.

(** [c] stands at index [j] of [s] and nowhere after it. *)
Definition last_at (c : char) (s : str) (j : nat) : Prop :=
  nth_error s j = Some c /\ forall k, (j < k)%nat -> nth_error s k <> Some c.

(** The characters of [s] at the indices [i] to [j], both included. *)
Definition span (s : str) (i j : nat) : str := firstn (S j - i) (skipn i s).

(** [sub] occurs in [s] as a block of consecutive characters. *)
Definition substring (sub s : str) : Prop := exists pre post, s = pre ++ sub ++ post.

(** A generation call was entered and did not return. *)
Definition generation_failed (h : list event) : Prop :=
  (length (generated h) < length (generate_calls h))%nat.

(** A feed item as the Collector promises it: a dict with exactly the three
    text fields. *)
Definition is_feed_item (v : value) : Prop :=
  exists t l p : str,
    v = VDict [(lit "title", VStr t); (lit "link", VStr l); (lit "published", VStr p)].



(** *** The paths of a run

    Every run follows one of the paths below; each gives the outcome of the
    run and its whole history. *)
Section Paths.
Variable float_repr : str -> str.
Variable w : world.

(** The Collector and the Prompt Builder went through. *)
Definition collected (trends news : list value) (prompt : str) : Prop :=
  fetch_rss GOOGLE_TRENDS_DAILY_LK 40 w [] = (Returns trends, []) /\
  fetch_rss GOOGLE_NEWS_LK 30 w [] = (Returns news, []) /\
  build_prompt float_repr trends news w [] = (Returns prompt, []).

(** One call of the Notifier after the history [h0]. *)
Inductive notified (subject body : value) (h0 : list event)
  : reply unit -> list event -> Prop :=
| Notified_failed (e : exn) :
    send_email subject body w h0 = (Raises e, h0 ++ [EvSendEmail subject body]) ->
    notified subject body h0 (Raises e) (h0 ++ [EvSendEmail subject body])
| Notified_delivered (m : mail) :
    send_email subject body w h0
    = (Returns tt, h0 ++ [EvSendEmail subject body; EvDelivered m]) ->
    mail_subject m = subject ->
    mail_body m = body ->
    notified subject body h0 (Returns tt)
             (h0 ++ [EvSendEmail subject body; EvDelivered m]).

(** The success path after the history [h0]: both lookups, then the
    report mail. *)
Inductive reported (report : value) (h0 : list event)
  : reply unit -> list event -> Prop :=
| Reported (subject body : value) (r : reply unit) (h : list event) :
    get report (lit "email_subject") (VStr default_subject) = Returns subject ->
    get report (lit "email_body") (VStr (dumps_indent float_repr 2 report))
    = Returns body ->
    notified subject body h0 r h ->
    reported report h0 r h.

Inductive run_path : reply unit -> list event -> Prop :=
| Path_trends_feed_raised (e : exn) :
    fetch_rss GOOGLE_TRENDS_DAILY_LK 40 w [] = (Raises e, []) ->
    run_path (Raises e) []
| Path_news_feed_raised (trends : list value) (e : exn) :
    fetch_rss GOOGLE_TRENDS_DAILY_LK 40 w [] = (Returns trends, []) ->
    fetch_rss GOOGLE_NEWS_LK 30 w [] = (Raises e, []) ->
    run_path (Raises e) []
| Path_generation1_raised (trends news : list value) (p : str) (e : exn) :
    collected trends news p ->
    gemini_generate p w [] = (Raises e, [EvGenerate p]) ->
    run_path (Raises e) [EvGenerate p]
| Path_output1_not_text (trends news : list value) (p : str) (out : value) :
    collected trends news p ->
    gemini_generate p w [] = (Returns out, [EvGenerate p; EvGenerated out]) ->
    (forall t, out <> VStr t) ->
    run_path (Raises AttributeError) [EvGenerate p; EvGenerated out]
| Path_report1 (trends news : list value) (p raw : str) (report : value)
               (r : reply unit) (h : list event) :
    collected trends news p ->
    gemini_generate p w [] = (Returns (VStr raw), [EvGenerate p; EvGenerated (VStr raw)]) ->
    safe_extract_json raw = Success report ->
    reported report [EvGenerate p; EvGenerated (VStr raw)] r h ->
    run_path r h
| Path_generation2_raised (trends news : list value) (p raw error : str) (e : exn) :
    let h1 := [EvGenerate p; EvGenerated (VStr raw)] in
    collected trends news p ->
    gemini_generate p w [] = (Returns (VStr raw), h1) ->
    safe_extract_json raw = Failure raw error ->
    gemini_generate (strict_prefix ++ p) w h1
    = (Raises e, h1 ++ [EvGenerate (strict_prefix ++ p)]) ->
    run_path (Raises e) (h1 ++ [EvGenerate (strict_prefix ++ p)])
| Path_output2_not_text (trends news : list value) (p raw error : str) (out : value) :
    let h1 := [EvGenerate p; EvGenerated (VStr raw)] in
    let h2 := h1 ++ [EvGenerate (strict_prefix ++ p); EvGenerated out] in
    collected trends news p ->
    gemini_generate p w [] = (Returns (VStr raw), h1) ->
    safe_extract_json raw = Failure raw error ->
    gemini_generate (strict_prefix ++ p) w h1 = (Returns out, h2) ->
    (forall t, out <> VStr t) ->
    run_path (Raises AttributeError) h2
| Path_report2 (trends news : list value) (p raw error raw2 : str) (report : value)
               (r : reply unit) (h : list event) :
    let h1 := [EvGenerate p; EvGenerated (VStr raw)] in
    let h2 := h1 ++ [EvGenerate (strict_prefix ++ p); EvGenerated (VStr raw2)] in
    collected trends news p ->
    gemini_generate p w [] = (Returns (VStr raw), h1) ->
    safe_extract_json raw = Failure raw error ->
    gemini_generate (strict_prefix ++ p) w h1 = (Returns (VStr raw2), h2) ->
    safe_extract_json raw2 = Success report ->
    reported report h2 r h ->
    run_path r h
| Path_debug (trends news : list value) (p raw error raw2 error2 : str)
             (r : reply unit) (h : list event) :
    let h1 := [EvGenerate p; EvGenerated (VStr raw)] in
    let h2 := h1 ++ [EvGenerate (strict_prefix ++ p); EvGenerated (VStr raw2)] in
    collected trends news p ->
    gemini_generate p w [] = (Returns (VStr raw), h1) ->
    safe_extract_json raw = Failure raw error ->
    gemini_generate (strict_prefix ++ p) w h1 = (Returns (VStr raw2), h2) ->
    safe_extract_json raw2 = Failure raw2 error2 ->
    notified (VStr error_subject) (VStr (error_body error2 raw2)) h2 r h ->
    run_path r h.
End Paths.

(** A world whose feed parser flags a fault and still hands back an entry,
    and one whose feed parser raises. *)
Definition faulty_world : world :=
  {| environ := Samples.environ_full;
     clock := Samples.monday;
     feedparser_parse := fun _ _ => Returns Samples.faulty_feed;
     requests_post := Samples.service [];
     smtp_transaction := fun _ _ => None |}.

Definition raising_world : world :=
  {| environ := Samples.environ_full;
     clock := Samples.monday;
     feedparser_parse := fun _ _ => Raises (Foreign (lit "connection reset"));
     requests_post := Samples.service [];
     smtp_transaction := fun _ _ => None |}.


From Stdlib Require DecimalFacts DecimalPos.

(** ** More sample environments *)

Module MoreSamples.

(** A world with healthy feeds, whose process environment, generation
    service and mail service are given. *)
Definition world_with (env : list (str * str))
    (post : list event -> str -> value -> Z -> reply response)
    (smtp : list event -> mail -> option exn) : world :=
  {| environ := env;
     clock := Samples.monday;
     feedparser_parse := fun _ _ => Returns Samples.healthy_feed;
     requests_post := post;
     smtp_transaction := smtp |}.

(** A service whose answer carries a number where the text should be. *)
Definition number_service (h : list event) (url : str) (payload : value) (timeout : Z)
  : reply response :=
  Returns {| status_code := 200;
             text := litq "{`candidates`: [{`content`: {`parts`: [{`text`: 5}]}}]}" |}.

(** A transport that cannot connect. *)
Definition dead_service (h : list event) (url : str) (payload : value) (timeout : Z)
  : reply response :=
  Raises (Foreign (lit "connection refused")).

(** A mail server that refuses the login. *)
Definition refusing_smtp (h : list event) (m : mail) : option exn :=
  Some (Foreign (lit "authentication failed")).

Definition accepting_smtp (h : list event) (m : mail) : option exn := None.

Definition environ_no_key : list (str * str) :=
  [ (lit "SMTP_HOST", lit "smtp.example.org");
    (lit "SMTP_USER", lit "agent@example.org");
    (lit "SMTP_PASS", lit "secret");
    (lit "TO_EMAIL", lit "owner@example.org") ].

Definition environ_no_recipient : list (str * str) :=
  [ (lit "GEMINI_API_KEY", lit "k");
    (lit "SMTP_HOST", lit "smtp.example.org");
    (lit "SMTP_USER", lit "agent@example.org");
    (lit "SMTP_PASS", lit "secret") ].

Definition environ_bad_port : list (str * str) :=
  (lit "SMTP_PORT", lit "smtp") :: Samples.environ_full.

Definition environ_custom : list (str * str) :=
  (lit "SMTP_PORT", lit "2525") :: (lit "FROM_EMAIL", lit "reports@example.org")
    :: (lit "GEMINI_MODEL", lit "gemini-pro") :: Samples.environ_full.

(** A service that answers every call with status 200 and the given body. *)
Definition fixed_service (body : str) (h : list event) (url : str) (payload : value)
    (timeout : Z) : reply response :=
  Returns {| status_code := 200; text := body |}.

(** The mail the sample settings build around a subject and a body. *)
Definition sample_mail (port : Z) (sender : str) (subject body : value) : mail :=
  {| smtp_host := lit "smtp.example.org";
     smtp_port := port;
     smtp_user := lit "agent@example.org";
     smtp_pass := lit "secret";
     from_email := sender;
     to_email := lit "owner@example.org";
     mail_subject := subject;
     mail_body := body |}.

(** A service that answers every call with status 302 and a well-formed
    body carrying [out]: a redirect without a target, which the HTTP client
    hands back as it is. *)
Definition moved_service (out : str) (h : list event) (url : str) (payload : value)
    (timeout : Z) : reply response :=
  Returns {| status_code := 302; text := Samples.service_body out |}.

(** A report that names neither a subject nor a body. *)
Definition bare_output : str := litq "{`summary`: `quiet week`, `trends`: []}".

End MoreSamples.

(** ** How a generation call fails on the wire *)

(** A success status, as HTTP has it. *)
Definition success_status (status : Z) : bool :=
  (200 <=? status)%Z && (status <? 300)%Z.

(** The outcome [out] of the HTTP call makes [gemini_generate] raise [e]:
    the client raised [e], or the service answered with a status that
    [raise_for_status] turns into an exception, one from 400 to 599. *)
Definition http_failure (out : reply response) (e : exn) : Prop :=
  out = Raises e \/
  exists r, out = Returns r /\ (400 <= status_code r < 600)%Z /\
            e = HTTPError (status_code r).

(** The variables [send_email] cannot do without. *)
Definition required_mail_settings : list str :=
  [lit "SMTP_HOST"; lit "SMTP_USER"; lit "SMTP_PASS"; lit "TO_EMAIL"].

(** The text a decoded answer of the service carries: the first part of
    the content of the first candidate. *)
Definition first_text (data : value) : option value :=
  match data with
  | VDict d =>
      match dict_get (lit "candidates") d with
      | Some (VList (VDict candidate :: _)) =>
          match dict_get (lit "content") candidate with
          | Some (VDict content) =>
              match dict_get (lit "parts") content with
              | Some (VList (VDict part :: _)) => dict_get (lit "text") part
              | _ => None
              end
          | _ => None
          end
      | _ => None
      end
  | _ => None
  end.

(** The model the request names: GEMINI_MODEL, or the default. *)
Definition chosen_model (w : world) : str :=
  match dict_get (lit "GEMINI_MODEL") (environ w) with
  | Some m => m
  | None => lit "gemini-1.5-flash"
  end.

(** The mail [m] carries the settings of the process environment of [w]:
    the four required variables, the port (587 unless SMTP_PORT is set) and
    the sender (the user unless FROM_EMAIL is set). *)
Definition mail_settings (w : world) (m : mail) : Prop :=
  dict_get (lit "SMTP_HOST") (environ w) = Some (smtp_host m) /\
  int (match dict_get (lit "SMTP_PORT") (environ w) with
       | Some p => p
       | None => lit "587"
       end) = Returns (smtp_port m) /\
  dict_get (lit "SMTP_USER") (environ w) = Some (smtp_user m) /\
  dict_get (lit "SMTP_PASS") (environ w) = Some (smtp_pass m) /\
  dict_get (lit "TO_EMAIL") (environ w) = Some (to_email m) /\
  from_email m = match dict_get (lit "FROM_EMAIL") (environ w) with
                 | Some f => f
                 | None => smtp_user m
                 end.

(** ** Values that print and read back *)

(** [k] is not among the keys of [d]. *)
Fixpoint fresh_key (V : Type) (k : str) (d : list (str * V)) : bool :=
  match d with
  | [] => true
  | (k', _) :: r => negb (str_eqb k' k) && fresh_key k r
  end.

(** The keys of [d] are pairwise distinct, as those of a Python dict are. *)
Fixpoint distinct_keys (V : Type) (d : list (str * V)) : bool :=
  match d with
  | [] => true
  | (k, _) :: r => fresh_key k r && distinct_keys r
  end.

(** A value without floats whose dicts are dicts: what [json.loads] can
    build from text without fractions or exponents. *)
Fixpoint plain (v : value) : bool :=
  match v with
  | VFloat _ => false
  | VList l => forallb plain l
  | VDict d =>
      distinct_keys d && forallb (fun kv : str * value => let (_, x) := kv in plain x) d
  | _ => true
  end.




(** A budget that decoding the printed value never exceeds. *)
Fixpoint weight (v : value) : nat :=
  match v with
  | VList l => S (fold_right (fun x n => S (weight x + n)) 0%nat l)
  | VDict d =>
      S (fold_right (fun (kv : str * value) n => let (_, x) := kv in S (weight x + n))
                    0%nat d)
  | _ => 1%nat
  end.

(** The line break and the spaces the encoder puts before an item at depth
    [level], and what it puts between two items. *)
Definition newline_indent (indent : option nat) (level : nat) : str :=
  match indent with
  | Some n => 10%N :: repeat 32%N (n * level)
  | None => []
  end.

Definition item_separator (indent : option nat) : str :=
  match indent with
  | Some _ => lit ","
  | None => lit ", "
  end.

(** A number that is followed by [rest] ends where it should: [rest] does
    not go on with a digit, a dot or an exponent mark. *)
Definition number_stops (rest : str) : bool :=
  match rest with
  | [] => true
  | c :: _ => negb (is_digit c || char_eqb c 46 || char_eqb c 101 || char_eqb c 69)
  end.

(** The budgets of the items of a list and of a dict. *)
Definition items_weight (l : list value) : nat :=
  fold_right (fun x n => S (weight x + n)) 0%nat l.

Definition pairs_weight (d : list (str * value)) : nat :=
  fold_right (fun (kv : str * value) n => let (_, x) := kv in S (weight x + n)) 0%nat d.

(** The printed form of [v], at any depth and before any text at which a
    number would stop, is read back as [v] by a decoder with budget enough. *)
Definition reads_back (float_repr : str -> str) (indent : option nat) (v : value) : Prop :=
  forall level fuel rest,
    (weight v <= fuel)%nat ->
    number_stops rest = true ->
    scan_once fuel (encode float_repr indent level v ++ rest) = Scanned v rest.
(** * Properties *)

Unset Implicit Arguments.

(** ** Text search and slicing *)

Lemma char_eqb_eq (a b : char) : char_eqb a b = true <-> a = b.
Proof. apply N.eqb_eq. Qed.

Lemma char_eqb_neq (a b : char) : char_eqb a b = false <-> a <> b.
Proof. apply N.eqb_neq. Qed.

Lemma find_from_spec (c : char) (s : str) (base : Z) :
  (find_from c s base = (-1)%Z /\ ~ In c s) \/
  (exists i, find_from c s base = (base + Z.of_nat i)%Z /\ first_at c s i).
Proof.
  revert base; induction s as [|x r IH]; intros base; simpl.
  - left; split; [reflexivity | tauto].
  - destruct (char_eqb x c) eqn:E.
    + apply char_eqb_eq in E; subst x. right; exists 0%nat. split.
      * simpl; lia.
      * split; [reflexivity | intros k Hk; lia].
    + apply char_eqb_neq in E.
      destruct (IH (base + 1)%Z) as [[H1 H2] | [i [H1 [H2 H3]]]].
      * left; split; [exact H1 | intros [H | H]; [congruence | tauto]].
      * right; exists (S i); split; [rewrite H1; lia|].
        split; [exact H2|].
        intros [|k] Hk; simpl; [congruence | apply H3; lia].
Qed.

Lemma rfind_from_spec (c : char) (s : str) (base : Z) :
  (0 <= base)%Z ->
  (rfind_from c s base = (-1)%Z /\ ~ In c s) \/
  (exists j, rfind_from c s base = (base + Z.of_nat j)%Z /\ last_at c s j).
Proof.
  revert base; induction s as [|x r IH]; intros base Hb; simpl.
  - left; split; [reflexivity | tauto].
  - destruct (IH (base + 1)%Z ltac:(lia)) as [[H1 H2] | [j [H1 [H2 H3]]]].
    + rewrite H1; simpl.
      destruct (char_eqb x c) eqn:E.
      * apply char_eqb_eq in E; subst x. right; exists 0%nat; split; [simpl; lia|].
        split; [reflexivity|].
        intros [|k] Hk; [lia|]. simpl. intros Hn. apply H2.
        eapply nth_error_In; exact Hn.
      * apply char_eqb_neq in E.
        left; split; [reflexivity | intros [H | H]; [congruence | tauto]].
    + rewrite H1.
      destruct (Z.eqb_spec (base + 1 + Z.of_nat j) (-1)) as [Hz | Hz]; [lia|].
      right; exists (S j); split; [lia|].
      split; [exact H2|].
      intros [|k] Hk; [lia|]. simpl. apply H3; lia.
Qed.

Lemma find_spec (s : str) (c : char) :
  (find s c = (-1)%Z /\ ~ In c s) \/
  (exists i, find s c = Z.of_nat i /\ first_at c s i).
Proof.
  unfold find. destruct (find_from_spec c s 0) as [H | [i [H1 H2]]]; [left; exact H|].
  right; exists i; split; [rewrite H1; lia | exact H2].
Qed.

Lemma rfind_spec (s : str) (c : char) :
  (rfind s c = (-1)%Z /\ ~ In c s) \/
  (exists j, rfind s c = Z.of_nat j /\ last_at c s j).
Proof.
  unfold rfind. destruct (rfind_from_spec c s 0 ltac:(lia)) as [H | [j [H1 H2]]];
    [left; exact H|].
  right; exists j; split; [rewrite H1; lia | exact H2].
Qed.

Lemma nth_error_lt (A : Type) (l : list A) (i : nat) (x : A) :
  nth_error l i = Some x -> (i < length l)%nat.
Proof. intros H. apply nth_error_Some. congruence. Qed.

(** A slice between two valid indices is the span between them; it is empty
    when the second index is below the first. *)
Lemma slice_span (A : Type) (l : list A) (i j : nat) :
  (i < length l)%nat -> (j < length l)%nat ->
  slice l (Z.of_nat i) (Z.of_nat j + 1) = firstn (S j - i) (skipn i l).
Proof.
  intros Hi Hj. unfold slice, clamp.
  destruct (Z.ltb_spec (Z.of_nat i) 0) as [H | _]; [lia|].
  destruct (Z.ltb_spec (Z.of_nat j + 1) 0) as [H | _]; [lia|].
  rewrite !Z.min_l by lia.
  rewrite Nat2Z.id.
  replace (Z.to_nat (Z.of_nat j + 1 - Z.of_nat i)) with (S j - i)%nat by lia.
  reflexivity.
Qed.

Lemma slice_substring (A : Type) (l : list A) (lo hi : Z) :
  exists pre post, l = pre ++ slice l lo hi ++ post.
Proof.
  unfold slice.
  set (a := Z.to_nat (clamp _ lo)). set (k := Z.to_nat (_ - _)).
  exists (firstn a l), (skipn k (skipn a l)).
  rewrite (firstn_skipn k (skipn a l)). symmetry; apply firstn_skipn.
Qed.

Lemma slice_to_firstn (A : Type) (l : list A) (n : Z) :
  (0 <= n)%Z -> slice_to l n = firstn (Z.to_nat n) l.
Proof.
  intros Hn. unfold slice_to, slice, clamp.
  destruct (Z.ltb_spec 0 0) as [H | _]; [lia|].
  destruct (Z.ltb_spec n 0) as [H | _]; [lia|].
  rewrite (Z.min_l 0) by lia. simpl skipn.
  rewrite Z.sub_0_r.
  destruct (Z.min_spec n (Z.of_nat (length l))) as [[H1 H2] | [H1 H2]]; rewrite H2.
  - reflexivity.
  - rewrite Nat2Z.id. rewrite firstn_all. symmetry; apply firstn_all2. lia.
Qed.

Lemma find_first_at (s : str) (c : char) (i : nat) :
  find s c = Z.of_nat i -> first_at c s i.
Proof.
  intros H. destruct (find_spec s c) as [[H1 _] | [k [H1 H2]]]; [lia|].
  assert (k = i) by lia. subst k. exact H2.
Qed.

Lemma rfind_last_at (s : str) (c : char) (j : nat) :
  rfind s c = Z.of_nat j -> last_at c s j.
Proof.
  intros H. destruct (rfind_spec s c) as [[H1 _] | [k [H1 H2]]]; [lia|].
  assert (k = j) by lia. subst k. exact H2.
Qed.

(** The slice [safe_extract_json] takes, once both braces were found. *)
Lemma extracted_slice (text : str) (i j : nat) :
  find text (code "{") = Z.of_nat i ->
  rfind text (code "}") = Z.of_nat j ->
  slice text (find text (code "{")) (rfind text (code "}") + 1) = span text i j.
Proof.
  intros Hi Hj. rewrite Hi, Hj.
  apply slice_span.
  - apply find_first_at in Hi. destruct Hi as [Hi _]. eapply nth_error_lt; exact Hi.
  - apply rfind_last_at in Hj. destruct Hj as [Hj _]. eapply nth_error_lt; exact Hj.
Qed.

Lemma safe_extract_json_found (text : str) (i j : nat) :
  find text (code "{") = Z.of_nat i ->
  rfind text (code "}") = Z.of_nat j ->
  safe_extract_json text =
    match loads (span text i j) with
    | inl report => Success report
    | inr e => Failure text (lit "JSON parse failed: " ++ e)
    end.
Proof.
  intros Hi Hj. unfold safe_extract_json.
  rewrite (extracted_slice text i j Hi Hj).
  destruct (Z.eqb_spec (find text (code "{")) (-1)) as [H | _]; [lia|].
  destruct (Z.eqb_spec (rfind text (code "}")) (-1)) as [H | _]; [lia|].
  reflexivity.
Qed.

Lemma safe_extract_json_missing (text : str) :
  find text (code "{") = (-1)%Z \/ rfind text (code "}") = (-1)%Z ->
  safe_extract_json text = Failure text (lit "No JSON detected").
Proof.
  intros H. unfold safe_extract_json.
  destruct H as [H | H]; rewrite H; simpl; [reflexivity|].
  rewrite orb_true_r. reflexivity.
Qed.

(** ** The JSON Extractor *)

(** C1. For every text the extractor takes the index of the first opening
    brace and of the last closing brace; when one of them is absent the
    result is the failure with error No JSON detected; otherwise it decodes
    the characters between the two indices, both included, and returns the
    decoded value, or the failure whose error is JSON parse failed followed
    by the decoder's message. *)
Theorem safe_extract_json_algorithm (text : str) :
  let start := find text (code "{") in
  let end_ := rfind text (code "}") in
  ((start = (-1)%Z /\ ~ In (code "{") text) \/
   (exists i, start = Z.of_nat i /\ first_at (code "{") text i)) /\
  ((end_ = (-1)%Z /\ ~ In (code "}") text) \/
   (exists j, end_ = Z.of_nat j /\ last_at (code "}") text j)) /\
  (start = (-1)%Z \/ end_ = (-1)%Z ->
   safe_extract_json text = Failure text (lit "No JSON detected")) /\
  (forall i j, start = Z.of_nat i -> end_ = Z.of_nat j ->
   safe_extract_json text =
     match loads (span text i j) with
     | inl report => Success report
     | inr e => Failure text (lit "JSON parse failed: " ++ e)
     end).
Proof.
  cbv zeta. split; [apply find_spec|]. split; [apply rfind_spec|].
  split; [apply safe_extract_json_missing|].
  intros i j; apply safe_extract_json_found.
Qed.

(** C4. A successful result carries a value decoded from a substring of the
    text; a failed result carries the text unchanged and a non-empty reason,
    one of the two the extractor words. *)
Theorem safe_extract_json_invariant (text : str) :
  match safe_extract_json text with
  | Success report => exists sub, substring sub text /\ loads sub = inl report
  | Failure raw error =>
      raw = text /\ error <> [] /\
      (error = lit "No JSON detected" \/
       exists e, error = lit "JSON parse failed: " ++ e)
  end.
Proof.
  unfold safe_extract_json.
  destruct (_ || _).
  - split; [reflexivity|]. split; [discriminate | left; reflexivity].
  - destruct (loads _) as [report | e] eqn:E.
    + eexists; split; [apply slice_substring | exact E].
    + split; [reflexivity|]. split; [discriminate | right; exists e; reflexivity].
Qed.

(** C10. When the last closing brace stands before the first opening brace
    the slice handed to the decoder is empty, and the result is the failure
    whose error begins with JSON parse failed, not the No JSON detected one. *)
Theorem safe_extract_json_reversed_braces (text : str) (i j : nat) :
  find text (code "{") = Z.of_nat i ->
  rfind text (code "}") = Z.of_nat j ->
  (j < i)%nat ->
  slice text (find text (code "{")) (rfind text (code "}") + 1) = [] /\
  safe_extract_json text =
    Failure text (lit "JSON parse failed: "
                    ++ lit "Expecting value: line 1 column 1 (char 0)") /\
  safe_extract_json text <> Failure text (lit "No JSON detected").
Proof.
  intros Hi Hj Hlt.
  assert (Hs : span text i j = []).
  { unfold span. replace (S j - i)%nat with 0%nat by lia. reflexivity. }
  split; [rewrite (extracted_slice text i j Hi Hj); exact Hs|].
  rewrite (safe_extract_json_found text i j Hi Hj), Hs.
  split; [reflexivity | discriminate].
Qed.

(** ** The decoder *)

Lemma skip_ws_length (s : str) : (length (skip_ws s) <= length s)%nat.
Proof.
  induction s as [|c r IH]; simpl; [lia|].
  destruct (is_ws c); simpl; lia.
Qed.

Lemma skip_ws_brace (r : str) : skip_ws (code "{" :: r) = code "{" :: r.
Proof. reflexivity. Qed.

Ltac break_match :=
  match goal with
  | H : context [match ?x with _ => _ end] |- _ => destruct x eqn:?
  | H : context [if ?x then _ else _] |- _ => destruct x eqn:?
  end.

Lemma scanstring_progress (n : nat) :
  forall s begin acc k rest,
    (length s <= n)%nat ->
    scanstring begin acc s = Scanned k rest -> (length rest < length s)%nat.
Proof.
  induction n as [|n IH]; intros s begin acc k rest Hn H.
  - destruct s; [discriminate | simpl in Hn; lia].
  - destruct s as [|c r]; [discriminate|].
    simpl in H, Hn.
    repeat (break_match; try discriminate; subst);
      try (injection H as <- <-; simpl; lia);
      match goal with
      | H : scanstring _ _ ?t = Scanned _ _ |- _ =>
          apply IH in H; [simpl in *; lia | simpl in *; lia]
      end.
Qed.

Lemma span_digits_length (s : str) :
  (length (snd (span_digits s)) <= length s)%nat.
Proof.
  induction s as [|c r IH]; simpl; [lia|].
  destruct (is_digit c); simpl; [|lia].
  destruct (span_digits r); simpl in *; lia.
Qed.

Lemma match_integer_progress (s tok rest : str) :
  match_integer s = Some (tok, rest) -> (length rest < length s)%nat.
Proof.
  unfold match_integer. intros H.
  repeat (break_match; try discriminate; subst);
    injection H as <- <-;
    repeat match goal with
      | E : span_digits ?r = (_, ?t) |- _ =>
          pose proof (span_digits_length r) as ?L; rewrite E in L; simpl in L; clear E
      end; simpl; lia.
Qed.

Lemma match_frac_length (s : str) : (length (snd (match_frac s)) <= length s)%nat.
Proof.
  unfold match_frac.
  destruct s as [|c r]; simpl; [lia|].
  destruct (char_eqb c 46); simpl; [|lia].
  pose proof (span_digits_length r) as L.
  destruct (span_digits r) as [[|d ds] t]; simpl in *; lia.
Qed.

Lemma match_exp_length (s : str) : (length (snd (match_exp s)) <= length s)%nat.
Proof.
  unfold match_exp.
  destruct s as [|c r]; simpl; [lia|].
  destruct (_ || _); simpl; [|lia].
  destruct r as [|x r']; simpl; [lia|].
  destruct (_ || _).
  - pose proof (span_digits_length r') as L.
    destruct (span_digits r') as [[|d ds] t]; simpl in *; lia.
  - pose proof (span_digits_length (x :: r')) as L.
    destruct (span_digits (x :: r')) as [[|d ds] t]; simpl in *; lia.
Qed.

Lemma match_number_progress (s : str) (v : value) (rest : str) :
  match_number s = Some (v, rest) -> (length rest < length s)%nat.
Proof.
  unfold match_number. intros H.
  destruct (match_integer s) as [[tok r1]|] eqn:E1; [|discriminate].
  apply match_integer_progress in E1.
  pose proof (match_frac_length r1) as L2.
  destruct (match_frac r1) as [frac r2].
  pose proof (match_exp_length r2) as L3.
  destruct (match_exp r2) as [exp r3].
  simpl in *.
  assert (rest = r3) by (destruct frac, exp; congruence).
  subst; lia.
Qed.

Lemma match_word_progress (w : string) (v0 : value) (s : str) (v : value) (rest : str) :
  w <> EmptyString ->
  match_word w v0 s = Some (v, rest) -> (length rest < length s)%nat.
Proof.
  unfold match_word. intros Hw H.
  destruct (startswith (lit w) s) eqn:E; [|discriminate].
  injection H as _ <-.
  destruct w as [|a w]; [congruence|].
  destruct s as [|c r]; [discriminate|].
  unfold lit; simpl. rewrite length_skipn. lia.
Qed.

Lemma scan_atom_progress (s : str) (v : value) (rest : str) :
  scan_atom s = Scanned v rest -> (length rest < length s)%nat.
Proof.
  unfold scan_atom. simpl. intros H.
  repeat match type of H with
    | context [match_word ?w ?v0 s] =>
        let E := fresh "E" in
        destruct (match_word w v0 s) as [[? ?]|] eqn:E;
        [ injection H as <- <-;
          eapply match_word_progress; [|exact E]; discriminate |]
    | context [match_number s] =>
        let E := fresh "E" in
        destruct (match_number s) as [[? ?]|] eqn:E;
        [ injection H as <- <-; eapply match_number_progress; exact E |]
    end.
  discriminate.
Qed.

Lemma scan_atom_budget (s : str) : scan_atom s <> Exhausted.
Proof.
  unfold scan_atom. destruct (fold_right _ _ _) as [[v rest]|]; discriminate.
Qed.

Lemma scanstring_budget (s : str) : forall begin acc, scanstring begin acc s <> Exhausted.
Proof.
  assert (G : forall n s begin acc, (length s <= n)%nat -> scanstring begin acc s <> Exhausted).
  { clear s. induction n as [|n IH]; intros s begin acc Hn H.
    - destruct s; [discriminate | simpl in Hn; lia].
    - destruct s as [|c r]; [discriminate|].
      simpl in H, Hn.
      repeat (break_match; try discriminate; subst);
        match goal with
        | H : scanstring _ _ ?t = Exhausted |- _ =>
            apply IH in H; [exact H | simpl in *; lia]
        end. }
  intros begin acc. apply (G (length s)). lia.
Qed.

(** Whatever [scan_once] and its loops read, they read at least one
    character. *)
Lemma scan_progress (fuel : nat) :
  (forall s v rest, scan_once fuel s = Scanned v rest -> (length rest < length s)%nat) /\
  (forall pairs s v rest,
      object_loop fuel pairs s = Scanned v rest -> (length rest < length s)%nat) /\
  (forall values s v rest,
      array_loop fuel values s = Scanned v rest -> (length rest < length s)%nat).
Proof.
  induction fuel as [|fuel [IHs [IHo IHa]]].
  - repeat split; intros; discriminate.
  - split; [|split].
    + intros s v rest H. simpl in H.
      destruct s as [|c r]; [discriminate|].
      destruct (char_eqb c dquote).
      { destruct (scanstring _ _ r) as [k t| | |] eqn:E; try discriminate.
        injection H as <- <-.
        apply (scanstring_progress (length r)) in E; simpl; lia. }
      destruct (char_eqb c 123).
      { pose proof (skip_ws_length r) as L.
        destruct (skip_ws r) as [|c1 r1] eqn:E.
        - apply IHo in H. simpl in H; lia.
        - destruct (char_eqb c1 125).
          + injection H as <- <-. simpl in *; lia.
          + apply IHo in H. simpl in *; lia. }
      destruct (char_eqb c 91).
      { pose proof (skip_ws_length r) as L.
        destruct (skip_ws r) as [|c1 r1] eqn:E.
        - apply IHa in H. simpl in H; lia.
        - destruct (char_eqb c1 93).
          + injection H as <- <-. simpl in *; lia.
          + apply IHa in H. simpl in *; lia. }
      apply scan_atom_progress in H. exact H.
    + intros pairs s v rest H. simpl in H.
      destruct s as [|q k0]; [discriminate|].
      destruct (char_eqb q dquote); [|discriminate].
      destruct (scanstring _ _ k0) as [key r1| | |] eqn:E; try discriminate.
      apply (scanstring_progress (length k0)) in E; [|lia].
      pose proof (skip_ws_length r1) as L1.
      destruct (skip_ws r1) as [|c r2]; [discriminate|].
      destruct (char_eqb c 58); [|discriminate].
      pose proof (skip_ws_length r2) as L2.
      destruct (scan_once fuel (skip_ws r2)) as [x r4| | |] eqn:E2; try discriminate.
      apply IHs in E2.
      pose proof (skip_ws_length r4) as L4.
      destruct (skip_ws r4) as [|c2 r5]; [discriminate|].
      destruct (char_eqb c2 125).
      * injection H as <- <-. simpl in *; lia.
      * destruct (char_eqb c2 44); [|discriminate].
        apply IHo in H. pose proof (skip_ws_length r5). simpl in *; lia.
    + intros values s v rest H. simpl in H.
      destruct (scan_once fuel s) as [x r1| | |] eqn:E; try discriminate.
      apply IHs in E.
      pose proof (skip_ws_length r1) as L1.
      destruct (skip_ws r1) as [|c r2]; [discriminate|].
      destruct (char_eqb c 93).
      * injection H as <- <-. simpl in *; lia.
      * destruct (char_eqb c 44); [|discriminate].
        apply IHa in H. pose proof (skip_ws_length r2). simpl in *; lia.
Qed.

(** A budget above twice the length of the text is never used up. *)
Lemma scan_budget (fuel : nat) :
  (forall s, (2 * length s < fuel)%nat -> scan_once fuel s <> Exhausted) /\
  (forall pairs s, (2 * length s + 1 < fuel)%nat \/ (s = [] /\ 0 < fuel)%nat ->
                   object_loop fuel pairs s <> Exhausted) /\
  (forall values s, (2 * length s + 1 < fuel)%nat ->
                    array_loop fuel values s <> Exhausted).
Proof.
  induction fuel as [|fuel [IHs [IHo IHa]]].
  - repeat split; intros; lia.
  - split; [|split].
    + intros s Hf H. simpl in H.
      destruct s as [|c r]; [discriminate|]. simpl in Hf.
      destruct (char_eqb c dquote).
      { destruct (scanstring _ _ r) as [k t| | |] eqn:E; try discriminate.
        eapply scanstring_budget; exact E. }
      destruct (char_eqb c 123).
      { pose proof (skip_ws_length r) as L.
        destruct (skip_ws r) as [|c1 r1] eqn:E.
        - apply IHo in H; [exact H | right; split; [reflexivity | lia]].
        - destruct (char_eqb c1 125); [discriminate|].
          apply IHo in H; [exact H | left; simpl in *; lia]. }
      destruct (char_eqb c 91).
      { pose proof (skip_ws_length r) as L.
        destruct (skip_ws r) as [|c1 r1] eqn:E.
        - apply IHa in H; [exact H | simpl; lia].
        - destruct (char_eqb c1 93); [discriminate|].
          apply IHa in H; [exact H | simpl in *; lia]. }
      eapply scan_atom_budget; exact H.
    + intros pairs s Hf H. simpl in H.
      destruct s as [|q k0]; [discriminate|].
      destruct Hf as [Hf | [Hf _]]; [|discriminate]. simpl in Hf.
      destruct (char_eqb q dquote); [|discriminate].
      destruct (scanstring _ _ k0) as [key r1| | |] eqn:E; try discriminate;
        [|eapply scanstring_budget; exact E].
      apply (scanstring_progress (length k0)) in E; [|lia].
      pose proof (skip_ws_length r1) as L1.
      destruct (skip_ws r1) as [|c r2]; [discriminate|].
      destruct (char_eqb c 58); [|discriminate].
      pose proof (skip_ws_length r2) as L2.
      destruct (scan_once fuel (skip_ws r2)) as [x r4| | |] eqn:E2; try discriminate.
      * apply (proj1 (scan_progress fuel)) in E2.
        pose proof (skip_ws_length r4) as L4.
        destruct (skip_ws r4) as [|c2 r5]; [discriminate|].
        destruct (char_eqb c2 125); [discriminate|].
        destruct (char_eqb c2 44); [|discriminate].
        apply IHo in H; [exact H|].
        left. pose proof (skip_ws_length r5). simpl in *; lia.
      * apply IHs in E2; [exact E2 | simpl in *; lia].
    + intros values s Hf H. simpl in H.
      destruct (scan_once fuel s) as [x r1| | |] eqn:E; try discriminate.
      * apply (proj1 (scan_progress fuel)) in E.
        pose proof (skip_ws_length r1) as L1.
        destruct (skip_ws r1) as [|c r2]; [discriminate|].
        destruct (char_eqb c 93); [discriminate|].
        destruct (char_eqb c 44); [|discriminate].
        apply IHa in H; [exact H|].
        pose proof (skip_ws_length r2). simpl in *; lia.
      * apply IHs in E; [exact E | lia].
Qed.

(** The budget [loads] hands to the decoder is enough. *)
Lemma loads_budget (s : str) :
  scan_once (S (2 * length s)) (skip_ws s) <> Exhausted.
Proof.
  apply (proj1 (scan_budget _)).
  pose proof (skip_ws_length s). lia.
Qed.

(** So [loads] always ends with a value or with a decoder error. *)
Lemma loads_cases (s : str) :
  (exists v, loads s = inl v) \/
  (exists m pos, loads s = inr (errmsg m s pos)).
Proof.
  unfold loads.
  destruct (startswith _ s); [right; eexists; eexists; reflexivity|].
  destruct (scan_once _ _) as [v rest| n | m n |] eqn:E.
  - destruct (skip_ws rest); [left; exists v; reflexivity|].
    right; eexists; eexists; reflexivity.
  - right; eexists; eexists; reflexivity.
  - right; eexists; eexists; reflexivity.
  - exfalso. exact (loads_budget s E).
Qed.

(** What the object loop returns is a dict. *)
Lemma object_loop_dict (fuel : nat) :
  forall pairs s v rest,
    object_loop fuel pairs s = Scanned v rest -> exists d, v = VDict d.
Proof.
  induction fuel as [|fuel IH]; intros pairs s v rest H; [discriminate|].
  simpl in H.
  repeat (break_match; try discriminate; subst).
  - injection H as <- _. eexists; reflexivity.
  - eapply IH; exact H.
Qed.

(** A text that opens with a brace decodes to a dict or not at all. *)
Lemma loads_brace_dict (r : str) (v : value) :
  loads (code "{" :: r) = inl v -> exists d, v = VDict d.
Proof.
  unfold loads. rewrite skip_ws_brace.
  change (startswith [65279%N] (code "{" :: r)) with false. cbv iota.
  destruct (scan_once _ _) as [x rest| | |] eqn:E; try discriminate.
  intros H.
  assert (x = v) by (destruct (skip_ws rest); [congruence | discriminate]).
  subst x. clear H.
  cbn [scan_once] in E.
  change (char_eqb (code "{") dquote) with false in E.
  change (char_eqb (code "{") 123) with true in E.
  cbv iota in E.
  destruct (skip_ws r) as [|c1 r1].
  - apply object_loop_dict in E. exact E.
  - destruct (char_eqb c1 125).
    + injection E as <- _. eexists; reflexivity.
    + apply object_loop_dict in E. exact E.
Qed.

Lemma loads_empty_fails : loads [] = inr (lit "Expecting value: line 1 column 1 (char 0)").
Proof. reflexivity. Qed.

Lemma span_head (s : str) (c : char) (i j : nat) :
  nth_error s i = Some c -> (i <= j)%nat -> exists r, span s i j = c :: r.
Proof.
  intros H Hij. apply nth_error_split in H. destruct H as [l1 [l2 [-> <-]]].
  unfold span. rewrite skipn_app, skipn_all, Nat.sub_diag. simpl skipn.
  replace (S j - length l1)%nat with (S (j - length l1)) by lia.
  simpl. eexists; reflexivity.
Qed.

(** A successful extraction yields a dict: the decoded slice is not empty,
    so it runs from the first opening brace. *)
Lemma safe_extract_json_dict (text : str) (report : value) :
  safe_extract_json text = Success report -> exists d, report = VDict d.
Proof.
  intros H.
  destruct (find_spec text (code "{")) as [[Hs _] | [i [Hi Hfi]]].
  { rewrite safe_extract_json_missing in H by (left; exact Hs). discriminate. }
  destruct (rfind_spec text (code "}")) as [[He _] | [j [Hj Hlj]]].
  { rewrite safe_extract_json_missing in H by (right; exact He). discriminate. }
  rewrite (safe_extract_json_found text i j Hi Hj) in H.
  destruct (Nat.le_gt_cases i j) as [Hij | Hij].
  - destruct (span_head text (code "{") i j (proj1 Hfi) Hij) as [r Hr].
    rewrite Hr in H.
    destruct (loads (code "{" :: r)) as [v | e] eqn:E; [|discriminate].
    injection H as <-. eapply loads_brace_dict; exact E.
  - unfold span in H. replace (S j - i)%nat with 0%nat in H by lia.
    simpl in H. discriminate.
Qed.

Lemma safe_extract_json_raw (text raw error : str) :
  safe_extract_json text = Failure raw error -> raw = text.
Proof.
  unfold safe_extract_json.
  destruct (_ || _); [congruence|].
  destruct (loads _); congruence.
Qed.

(** ** Steps of a run *)

Lemma fold_append_map (A B : Type) (g : A -> B) (l : list A) (acc : list B) :
  fold_left (fun out e => out ++ [g e]) l acc = acc ++ map g l.
Proof.
  revert acc; induction l as [|x l IH]; intros acc; simpl.
  - symmetry; apply app_nil_r.
  - rewrite IH, <- app_assoc. reflexivity.
Qed.

Lemma fetch_rss_returns (url : str) (max_items : Z) (w : world) (h : list event) (f : feed) :
  feedparser_parse w h url = Returns f ->
  fetch_rss url max_items w h
  = (Returns (map feed_item (slice_to (entries f) max_items)), h).
Proof.
  intros H. unfold fetch_rss. rewrite H, fold_append_map. reflexivity.
Qed.

Lemma fetch_rss_raises (url : str) (max_items : Z) (w : world) (h : list event) (e : exn) :
  feedparser_parse w h url = Raises e ->
  fetch_rss url max_items w h = (Raises e, h).
Proof. intros H. unfold fetch_rss. rewrite H. reflexivity. Qed.

Lemma fetch_rss_history (url : str) (max_items : Z) (w : world) (h : list event) :
  snd (fetch_rss url max_items w h) = h.
Proof. unfold fetch_rss. destruct (feedparser_parse w h url); reflexivity. Qed.

Ltac step_cases :=
  repeat (match goal with
    | H : (_, _) = (_, _) |- _ => injection H as ? ?; subst
    | H : context [match ?x with _ => _ end] |- _ => destruct x eqn:?
    | |- context [match ?x with _ => _ end] => destruct x eqn:?
    end; try discriminate).

(** A generation call logs its entry, and its return when it returns. *)
Lemma gemini_generate_cases (prompt : str) (w : world) (h : list event) :
  (exists e, gemini_generate prompt w h = (Raises e, h ++ [EvGenerate prompt])) \/
  (exists out, gemini_generate prompt w h
               = (Returns out, (h ++ [EvGenerate prompt]) ++ [EvGenerated out])).
Proof.
  unfold gemini_generate, raise_for_status, response_json,
    bind, log, environ_item, environ_get, lift, ret, raise.
  step_cases;
    try (left; eexists; reflexivity);
    try (right; eexists; reflexivity).
Qed.

(** A call of the Notifier logs its entry, and the delivery when the
    transaction went through. *)
Lemma send_email_cases (subject body : value) (w : world) (h : list event) :
  (exists e, send_email subject body w h = (Raises e, h ++ [EvSendEmail subject body])) \/
  (exists m, send_email subject body w h
             = (Returns tt, (h ++ [EvSendEmail subject body]) ++ [EvDelivered m])
             /\ mail_subject m = subject /\ mail_body m = body).
Proof.
  unfold send_email, bind, log, environ_item, environ_get, lift, ret, raise.
  step_cases;
    try (left; eexists; reflexivity);
    try (right; eexists; split; [reflexivity | split; reflexivity]).
Qed.

Lemma bind_returns (A B : Type) (m : M A) (k : A -> M B) (w : world) (h h' : list event) (a : A) :
  m w h = (Returns a, h') -> bind m k w h = k a w h'.
Proof. intros H. unfold bind. rewrite H. reflexivity. Qed.

Lemma bind_raises (A B : Type) (m : M A) (k : A -> M B) (w : world) (h h' : list event) (e : exn) :
  m w h = (Raises e, h') -> bind m k w h = (Raises e, h').
Proof. intros H. unfold bind. rewrite H. reflexivity. Qed.

(** ** The paths cover every run *)

Section PathsCover.
Variable float_repr : str -> str.
Variable w : world.

Lemma notified_complete (subject body : value) (h0 : list event) :
  notified w subject body h0 (fst (send_email subject body w h0))
           (snd (send_email subject body w h0)).
Proof.
  destruct (send_email_cases subject body w h0) as [[e H] | [m [H [Hs Hb]]]].
  - rewrite H. simpl. apply Notified_failed. exact H.
  - rewrite <- app_assoc in H. simpl in H. rewrite H. simpl.
    apply Notified_delivered; assumption.
Qed.

Lemma reported_complete (d : list (str * value)) (h0 : list event) :
  let report := VDict d in
  let k : M unit :=
    subject <- lift (get report (lit "email_subject") (VStr default_subject)) ;;
    body <- lift (get report (lit "email_body")
                    (VStr (dumps_indent float_repr 2 report))) ;;
    send_email subject body in
  reported float_repr w report h0 (fst (k w h0)) (snd (k w h0)).
Proof.
  intros report k. subst k.
  destruct (get report (lit "email_subject") (VStr default_subject)) as [subject | e] eqn:Gs.
  2: { unfold report, get in Gs. destruct (dict_get _ d); discriminate. }
  destruct (get report (lit "email_body") (VStr (dumps_indent float_repr 2 report)))
    as [body | e] eqn:Gb.
  2: { unfold report, get in Gb. destruct (dict_get _ d); discriminate. }
  rewrite (bind_returns _ _ _ _ _ h0 h0 subject eq_refl).
  rewrite (bind_returns _ _ _ _ _ h0 h0 body eq_refl).
  eapply Reported; [exact Gs | exact Gb | apply notified_complete].
Qed.

Lemma run_follows_path :
  run_path float_repr w (fst (run float_repr w)) (snd (run float_repr w)).
Proof.
  unfold run, main.
  (* the two feeds *)
  destruct (fetch_rss GOOGLE_TRENDS_DAILY_LK 40 w []) as [[trends | e] h0] eqn:F1;
    pose proof (fetch_rss_history GOOGLE_TRENDS_DAILY_LK 40 w []) as Hh;
    rewrite F1 in Hh; simpl in Hh; subst h0.
  2: { rewrite (bind_raises _ _ _ _ _ _ _ e F1). apply Path_trends_feed_raised; exact F1. }
  rewrite (bind_returns _ _ _ _ _ _ _ trends F1).
  destruct (fetch_rss GOOGLE_NEWS_LK 30 w []) as [[news | e] h0] eqn:F2;
    pose proof (fetch_rss_history GOOGLE_NEWS_LK 30 w []) as Hh;
    rewrite F2 in Hh; simpl in Hh; subst h0.
  2: { rewrite (bind_raises _ _ _ _ _ _ _ e F2).
       eapply Path_news_feed_raised; [exact F1 | exact F2]. }
  rewrite (bind_returns _ _ _ _ _ _ _ news F2).
  (* the prompt *)
  destruct (build_prompt float_repr trends news w []) as [rp hp] eqn:B.
  assert (exists p, rp = Returns p /\ hp = []) as [p [-> ->]]
    by (unfold build_prompt in B; injection B as <- <-; eexists; split; reflexivity).
  rewrite (bind_returns _ _ _ _ _ _ _ p B).
  assert (C : collected float_repr w trends news p) by (repeat split; assumption).
  (* first attempt *)
  destruct (gemini_generate_cases p w []) as [[e G] | [out G]]; simpl in G.
  { rewrite (bind_raises _ _ _ _ _ _ _ e G).
    eapply Path_generation1_raised; [exact C | exact G]. }
  rewrite (bind_returns _ _ _ _ _ _ _ out G).
  destruct out as [| b | z | tok | raw | l | d];
    try (rewrite (bind_raises _ _ _ _ _ _ _ AttributeError eq_refl);
         eapply Path_output1_not_text; [exact C | exact G | intros t; discriminate]).
  rewrite (bind_returns _ _ _ _ _ _ _ (safe_extract_json raw) eq_refl).
  destruct (safe_extract_json raw) as [report | raw' error] eqn:S.
  { cbn [ok negb].
    rewrite (bind_returns _ _ _ _ _ _ _ (Success report) eq_refl).
    destruct (safe_extract_json_dict raw report S) as [d ->].
    eapply Path_report1; [exact C | exact G | exact S |].
    apply reported_complete. }
  assert (raw' = raw) by (eapply safe_extract_json_raw; exact S). subst raw'.
  cbn [ok negb].
  (* second attempt *)
  set (h1 := [EvGenerate p; EvGenerated (VStr raw)]) in *.
  destruct (gemini_generate_cases (strict_prefix ++ p) w h1) as [[e G2] | [out G2]].
  { rewrite (bind_raises _ _ _ _ _ _ _ e
               (bind_raises _ _ _ _ _ _ _ e G2)).
    eapply Path_generation2_raised; [exact C | exact G | exact S | exact G2]. }
  rewrite <- app_assoc in G2. simpl app in G2.
  destruct out as [| b | z | tok | raw2 | l | d];
    try (rewrite (bind_raises _ _ _ _ _ _ _ AttributeError
                    (eq_trans (bind_returns _ _ _ _ _ _ _ _ G2) eq_refl));
         eapply Path_output2_not_text;
         [exact C | exact G | exact S | exact G2 | intros t; discriminate]).
  rewrite (bind_returns _ _ _ _ _ _ _ (safe_extract_json raw2)
             (eq_trans (bind_returns _ _ _ _ _ _ _ _ G2) eq_refl)).
  destruct (safe_extract_json raw2) as [report | raw' error2] eqn:S2.
  { destruct (safe_extract_json_dict raw2 report S2) as [d ->].
    eapply Path_report2; [exact C | exact G | exact S | exact G2 | exact S2 |].
    apply reported_complete. }
  assert (raw' = raw2) by (eapply safe_extract_json_raw; exact S2). subst raw'.
  eapply Path_debug; [exact C | exact G | exact S | exact G2 | exact S2 |].
  apply notified_complete.
Qed.
End PathsCover.

(** ** Reading a history *)

Lemma generate_calls_app (h1 h2 : list event) :
  generate_calls (h1 ++ h2) = generate_calls h1 ++ generate_calls h2.
Proof. apply flat_map_app. Qed.

Lemma generated_app (h1 h2 : list event) :
  generated (h1 ++ h2) = generated h1 ++ generated h2.
Proof. apply flat_map_app. Qed.

Lemma send_calls_app (h1 h2 : list event) :
  send_calls (h1 ++ h2) = send_calls h1 ++ send_calls h2.
Proof. apply flat_map_app. Qed.

Lemma delivered_app (h1 h2 : list event) :
  delivered (h1 ++ h2) = delivered h1 ++ delivered h2.
Proof. apply flat_map_app. Qed.

(** What one call of the Notifier adds to a history. *)
Lemma notified_history (w : world) (subject body : value) (h0 : list event)
      (r : reply unit) (h : list event) :
  notified w subject body h0 r h ->
  generate_calls h = generate_calls h0 /\
  generated h = generated h0 /\
  send_calls h = send_calls h0 ++ [(subject, body)] /\
  ((delivered h = delivered h0 /\ exists e, r = Raises e) \/
   (exists m, delivered h = delivered h0 ++ [m] /\ r = Returns tt /\
              mail_subject m = subject /\ mail_body m = body)) /\
  r = fst (send_email subject body w h0).
Proof.
  intros N. destruct N as [e H | m H Hs Hb];
    rewrite generate_calls_app, generated_app, send_calls_app, delivered_app, H;
    simpl; rewrite ?app_nil_r; repeat split.
  - left; split; [reflexivity | exists e; reflexivity].
  - right; exists m; repeat split; assumption.
Qed.

Ltac path_cases fr w P :=
  pose proof (run_follows_path fr w) as P;
  destruct (run fr w) as [?r ?h]; simpl fst in *; simpl snd in *;
  destruct P;
  repeat match goal with
    | x := _ : list event |- _ => subst x
    | R : reported _ _ _ _ _ _ |- _ => destruct R
    | N : notified _ _ _ _ _ _ |- _ =>
        apply notified_history in N;
        destruct N as (?Hcalls & ?Hgen & ?Hsend & ?Hdeliv & ?Hres)
    end;
  cbn [app flat_map generate_calls generated send_calls delivered] in *.

Ltac not_text_absurd :=
  match goal with
  | H : forall t, VStr _ <> VStr t |- _ => exfalso; eapply H; reflexivity
  end.

Ltac same_extraction :=
  repeat match goal with
    | S : safe_extract_json ?x = _, Hok : ok (safe_extract_json ?x) = _ |- _ =>
        rewrite S in Hok; simpl in Hok; try discriminate
    | S1 : safe_extract_json ?x = _, S2 : safe_extract_json ?x = _ |- _ =>
        rewrite S1 in S2; try discriminate; injection S2 as ?; subst
    end.

(** ** The Orchestrator *)

(** C2. In every run the Generator is called at most twice: exactly once,
    with the built prompt, when the first extraction succeeds, and exactly
    twice when it fails, the second time with the strict instruction put in
    front of the same prompt. *)
Theorem orchestrator_generator_calls (float_repr : str -> str) (w : world) :
  let h := snd (run float_repr w) in
  (length (generate_calls h) <= 2)%nat /\
  (forall raw,
      nth_error (generated h) 0 = Some (VStr raw) ->
      ok (safe_extract_json raw) = true ->
      exists trends news p,
        collected float_repr w trends news p /\ generate_calls h = [p]) /\
  (forall raw,
      nth_error (generated h) 0 = Some (VStr raw) ->
      ok (safe_extract_json raw) = false ->
      exists trends news p,
        collected float_repr w trends news p /\
        generate_calls h = [p; strict_prefix ++ p]).
Proof.
  cbv zeta. path_cases float_repr w P;
    rewrite ?Hcalls; simpl; (split; [lia|]);
    (split; intros raw0 Hn Hok; rewrite ?Hgen in Hn; simpl in Hn;
     try discriminate;
     try (injection Hn as ->);
     same_extraction;
     try not_text_absurd;
     try (exists trends, news, p; split; [assumption | reflexivity])).
Qed.

Lemma startswith_app (a b : str) : startswith a (a ++ b) = true.
Proof.
  induction a as [|x a IH]; simpl; [reflexivity|].
  unfold char_eqb. rewrite N.eqb_refl. exact IH.
Qed.




(** How a generation call fails on the wire: the transport raises, or the
    service answers with a status from 400 to 599. *)
Lemma gemini_generate_http_failure (prompt : str) (w : world) (h : list event)
      (api_key : str) :
  dict_get (lit "GEMINI_API_KEY") (environ w) = Some api_key ->
  let model :=
    match dict_get (lit "GEMINI_MODEL") (environ w) with
    | Some m => m
    | None => lit "gemini-1.5-flash"
    end in
  match requests_post w (h ++ [EvGenerate prompt])
                      (generate_url model api_key) (generate_payload prompt) 60 with
  | Raises e => gemini_generate prompt w h = (Raises e, h ++ [EvGenerate prompt])
  | Returns r =>
      (400 <= status_code r < 600)%Z ->
      gemini_generate prompt w h
      = (Raises (HTTPError (status_code r)), h ++ [EvGenerate prompt])
  end.
Proof.
  intros Hk model.
  unfold gemini_generate, bind, log, environ_item, environ_get.
  rewrite Hk. subst model.
  destruct (dict_get (lit "GEMINI_MODEL") (environ w)) as [m|];
    (destruct (requests_post _ _ _ _ _) as [r | e]; [|reflexivity];
     intros [Hlo Hhi]; unfold raise_for_status;
     apply Z.leb_le in Hlo; apply Z.ltb_lt in Hhi; rewrite Hlo, Hhi; reflexivity).
Qed.

(** A failure on the wire is the failure of the generation call. *)
Lemma gemini_generate_refused (prompt : str) (w : world) (h : list event)
      (api_key : str) (e : exn) :
  dict_get (lit "GEMINI_API_KEY") (environ w) = Some api_key ->
  http_failure (requests_post w (h ++ [EvGenerate prompt])
                              (generate_url (chosen_model w) api_key)
                              (generate_payload prompt) 60) e ->
  gemini_generate prompt w h = (Raises e, h ++ [EvGenerate prompt]).
Proof.
  intros Hk Hf.
  pose proof (gemini_generate_http_failure prompt w h api_key Hk) as G.
  cbv zeta in G. fold (chosen_model w) in G.
  destruct Hf as [E | [r [E [Hs ->]]]]; rewrite E in G; [exact G | exact (G Hs)].
Qed.

(** C6, as the code has it. A generation call fails on the wire when the
    HTTP call raises or the service answers with a status from 400 to 599,
    the statuses [raise_for_status] turns into an exception.  When that
    happens at the first call, or at the second call after a first answer
    that did not extract, the run raises the exception of that call and its
    history ends with the entry of that call: the Notifier was never called
    and no mail of any kind was sent.  The same holds of a generation call
    that fails in any other way (first part): whenever a call of a run was
    entered and did not return, the run stopped there with its exception. *)
Theorem generation_failure_aborts (float_repr : str -> str) (w : world) :
  let r := fst (run float_repr w) in
  let h := snd (run float_repr w) in
  (generation_failed h ->
   exists p h0 e,
     h = h0 ++ [EvGenerate p] /\
     gemini_generate p w h0 = (Raises e, h) /\
     r = Raises e /\
     send_calls h = [] /\
     delivered h = []) /\
  (forall (trends news : list value) (p api_key : str) (e : exn),
      collected float_repr w trends news p ->
      dict_get (lit "GEMINI_API_KEY") (environ w) = Some api_key ->
      http_failure (requests_post w [EvGenerate p]
                                  (generate_url (chosen_model w) api_key)
                                  (generate_payload p) 60) e ->
      r = Raises e /\ h = [EvGenerate p] /\
      generation_failed h /\ send_calls h = [] /\ delivered h = []) /\
  (forall (trends news : list value) (p raw api_key : str) (e : exn),
      collected float_repr w trends news p ->
      gemini_generate p w [] = (Returns (VStr raw), [EvGenerate p; EvGenerated (VStr raw)]) ->
      ok (safe_extract_json raw) = false ->
      dict_get (lit "GEMINI_API_KEY") (environ w) = Some api_key ->
      http_failure (requests_post w [EvGenerate p; EvGenerated (VStr raw);
                                     EvGenerate (strict_prefix ++ p)]
                                  (generate_url (chosen_model w) api_key)
                                  (generate_payload (strict_prefix ++ p)) 60) e ->
      r = Raises e /\
      h = [EvGenerate p; EvGenerated (VStr raw); EvGenerate (strict_prefix ++ p)] /\
      generation_failed h /\ send_calls h = [] /\ delivered h = []).
Proof.
  cbv zeta. split; [|split].
  - unfold generation_failed.
    path_cases float_repr w P; intros Hf;
      rewrite ?Hcalls, ?Hgen in Hf; simpl in Hf; try lia.
    + exists p, [], e. repeat split; assumption.
    + exists (strict_prefix ++ p), [EvGenerate p; EvGenerated (VStr raw)], e.
      repeat split; assumption.
  - intros trends news p api_key e [Ct [Cn Cb]] Hk Hf.
    pose proof (gemini_generate_refused p w [] api_key e Hk Hf) as G.
    assert (R : run float_repr w = (Raises e, [EvGenerate p])).
    { unfold run, main.
      rewrite (bind_returns _ _ _ _ _ _ _ _ Ct).
      rewrite (bind_returns _ _ _ _ _ _ _ _ Cn).
      rewrite (bind_returns _ _ _ _ _ _ _ _ Cb).
      apply bind_raises. exact G. }
    rewrite R. cbn [fst snd]. unfold generation_failed.
    repeat split; try reflexivity; vm_compute; lia.
  - intros trends news p raw api_key e [Ct [Cn Cb]] G1 Hbad Hk Hf.
    pose proof (gemini_generate_refused (strict_prefix ++ p) w
                  [EvGenerate p; EvGenerated (VStr raw)] api_key e Hk Hf) as G2.
    cbn [app] in G2.
    assert (R : run float_repr w
                = (Raises e, [EvGenerate p; EvGenerated (VStr raw);
                              EvGenerate (strict_prefix ++ p)])).
    { unfold run, main.
      rewrite (bind_returns _ _ _ _ _ _ _ _ Ct).
      rewrite (bind_returns _ _ _ _ _ _ _ _ Cn).
      rewrite (bind_returns _ _ _ _ _ _ _ _ Cb).
      rewrite (bind_returns _ _ _ _ _ _ _ _ G1).
      unfold call_safe_extract_json at 1.
      unfold bind at 1. unfold ret at 1.
      destruct (safe_extract_json raw) as [report | raw' error]; [discriminate Hbad|].
      cbn [ok negb].
      unfold bind. rewrite G2. reflexivity. }
    rewrite R. cbn [fst snd]. unfold generation_failed.
    repeat split; try reflexivity; vm_compute; lia.
Qed.

(** C6 as stated fails for a status that is no success and no error for
    [raise_for_status]: answered with status 302 and a readable body, the
    generation call returns, the run goes on and the report is mailed. *)
Lemma generation_status_counterexample :
  ~ (forall (w : world) (trends news : list value) (p api_key : str) (r : response),
        collected Samples.float_text w trends news p ->
        dict_get (lit "GEMINI_API_KEY") (environ w) = Some api_key ->
        requests_post w [EvGenerate p] (generate_url (chosen_model w) api_key)
                      (generate_payload p) 60 = Returns r ->
        success_status (status_code r) = false ->
        (exists e, fst (run Samples.float_text w) = Raises e) /\
        send_calls (snd (run Samples.float_text w)) = []).
Proof.
  intros H.
  destruct (H (MoreSamples.world_with Samples.environ_full
                 (MoreSamples.moved_service Samples.good_output)
                 MoreSamples.accepting_smtp)
              _ _ _ (lit "k")
              {| status_code := 302; text := Samples.service_body Samples.good_output |}
              (conj eq_refl (conj eq_refl eq_refl)) eq_refl eq_refl eq_refl)
    as [_ Hs].
  vm_compute in Hs. discriminate Hs.
Qed.

(** C9. A successful extraction yields a dict, so both lookups of the
    success path return; in a run whose last generated text extracts
    successfully the Notifier is called with what they returned. *)
Theorem successful_report_is_dict (float_repr : str -> str) (text : str) (report : value) :
  safe_extract_json text = Success report ->
  (exists d, report = VDict d) /\
  (exists subject body,
      get report (lit "email_subject") (VStr default_subject) = Returns subject /\
      get report (lit "email_body") (VStr (dumps_indent float_repr 2 report))
      = Returns body /\
      forall w,
        last (generated (snd (run float_repr w))) VNone = VStr text ->
        send_calls (snd (run float_repr w)) = [(subject, body)]).
Proof.
  intros S. destruct (safe_extract_json_dict text report S) as [d ->].
  split; [exists d; reflexivity|].
  destruct (get (VDict d) (lit "email_subject") (VStr default_subject))
    as [subject | e] eqn:Gs.
  2: { unfold get in Gs. destruct (dict_get _ d); discriminate. }
  destruct (get (VDict d) (lit "email_body") (VStr (dumps_indent float_repr 2 (VDict d))))
    as [body | e] eqn:Gb.
  2: { unfold get in Gb. destruct (dict_get _ d); discriminate. }
  exists subject, body. split; [reflexivity|]. split; [reflexivity|].
  intros w. path_cases float_repr w P; intros Hl;
    rewrite ?Hgen in Hl; simpl in Hl;
    try discriminate;
    try (injection Hl as Hl);
    subst;
    try not_text_absurd;
    same_extraction;
    rewrite Hsend; simpl in *; congruence.
Qed.

(** ** The Prompt Builder *)

(** C7. The prompt is a function of the date, the trends and the news: two
    invocations, in any two worlds whose clocks show the same date and after
    any two histories, return the same text, raise nothing and add nothing
    to the history. *)
Theorem build_prompt_deterministic (float_repr : str -> str)
        (trends news : list value) (w1 w2 : world) (h1 h2 : list event) :
  strftime_Ymd (clock w1) = strftime_Ymd (clock w2) ->
  exists p,
    build_prompt float_repr trends news w1 h1 = (Returns p, h1) /\
    build_prompt float_repr trends news w2 h2 = (Returns p, h2).
Proof.
  intros H. unfold build_prompt. rewrite H.
  eexists; split; reflexivity.
Qed.

Lemma substring_refl (s : str) : substring s s.
Proof. exists [], []. rewrite app_nil_r. reflexivity. Qed.

Lemma substring_app_l (n a b : str) : substring n a -> substring n (a ++ b).
Proof.
  intros [pre [post ->]]. exists pre, (post ++ b).
  rewrite <- !app_assoc. reflexivity.
Qed.

Lemma substring_app_r (n a b : str) : substring n b -> substring n (a ++ b).
Proof.
  intros [pre [post ->]]. exists (a ++ pre), post.
  rewrite <- !app_assoc. reflexivity.
Qed.

Lemma startswith_split (p s : str) :
  startswith p s = true <-> exists post, s = p ++ post.
Proof.
  split.
  - revert s; induction p as [|x p IH]; intros s H; [exists s; reflexivity|].
    destruct s as [|y s]; [discriminate|]. simpl in H.
    apply andb_true_iff in H. destruct H as [H1 H2].
    apply char_eqb_eq in H1. subst y.
    destruct (IH s H2) as [post ->]. exists post; reflexivity.
  - intros [post ->]. apply startswith_app.
Qed.

(** [contains] decides [substring]. *)
Lemma contains_substring (n s : str) : contains n s = true <-> substring n s.
Proof.
  split.
  - induction s as [|c s IH]; simpl; intros H.
    + rewrite orb_false_r in H. apply startswith_split in H.
      destruct H as [post H]. exists [], post. exact H.
    + apply orb_true_iff in H. destruct H as [H | H].
      * apply startswith_split in H. destruct H as [post H]. exists [], post. exact H.
      * destruct (IH H) as [pre [post ->]]. exists (c :: pre), post. reflexivity.
  - intros [pre [post ->]]. induction pre as [|c pre IH].
    + assert (H : startswith n (n ++ post) = true) by apply startswith_app.
      simpl app. destruct (n ++ post); simpl; rewrite H; reflexivity.
    + simpl. rewrite IH. apply orb_true_r.
Qed.

Lemma join_item (sep x : str) (parts : list str) :
  In x parts -> substring x (join sep parts).
Proof.
  destruct parts as [|p ps]; [contradiction|].
  intros [-> | H]; simpl.
  - apply substring_app_l, substring_refl.
  - apply substring_app_r.
    induction ps as [|q ps IH]; [contradiction|]. simpl.
    destruct H as [-> | H].
    + apply substring_app_l, substring_app_r, substring_refl.
    + apply substring_app_r, IH, H.
Qed.

(** Without [indent], every item of a dict is printed as its key, a colon
    and a space, and its value. *)
Lemma encode_dict_item (float_repr : str -> str) (d : list (str * value))
      (k : str) (v : value) (level : nat) :
  In (k, v) d ->
  substring (encode_basestring k ++ lit ": " ++ encode float_repr None (S level) v)
            (encode float_repr None level (VDict d)).
Proof.
  intros H. destruct d as [|kv d]; [contradiction|].
  cbn [encode].
  apply substring_app_r, substring_app_r, substring_app_l.
  apply join_item.
  apply (in_map (fun kv : str * value =>
                   let (k, x) := kv in
                   encode_basestring k ++ lit ": " ++ encode float_repr None (S level) x)
                (kv :: d) (k, v) H).
Qed.

(** C8. With no trends and no news the prompt still comes out, and it
    contains the two empty lists under their keys. *)
Theorem build_prompt_empty_feeds (float_repr : str -> str) (w : world) (h : list event) :
  exists p,
    build_prompt float_repr [] [] w h = (Returns p, h) /\
    substring (litq "`google_trends_lk_daily`: []") p /\
    substring (litq "`google_news_lk`: []") p /\
    contains (litq "`google_trends_lk_daily`: []") p = true /\
    contains (litq "`google_news_lk`: []") p = true.
Proof.
  unfold build_prompt. eexists. split; [reflexivity|].
  set (blob := VDict _).
  assert (A : substring (litq "`google_trends_lk_daily`: []") (dumps float_repr blob)).
  { apply (encode_dict_item float_repr _ (lit "google_trends_lk_daily") (VList []) 0).
    simpl; tauto. }
  assert (B : substring (litq "`google_news_lk`: []") (dumps float_repr blob)).
  { apply (encode_dict_item float_repr _ (lit "google_news_lk") (VList []) 0).
    simpl; tauto. }
  assert (G : forall n, substring n (dumps float_repr blob) ->
                        substring n (prompt_head ++ strftime_Ymd (clock w) ++ prompt_schema
                                       ++ dumps float_repr blob ++ prompt_tail)).
  { intros n Hn. do 3 apply substring_app_r. apply substring_app_l. exact Hn. }
  split; [apply G, A|]. split; [apply G, B|].
  split; apply contains_substring; apply G; assumption.
Qed.

(** ** The Feed Collector *)

Lemma feed_item_fields (e : entry) : is_feed_item (feed_item e).
Proof.
  exists (getattr (title e) []), (getattr (link e) []), (getattr (published e) []).
  reflexivity.
Qed.

(** C5, as the code has it. For a limit that is not negative, whenever the
    feed parser hands back a feed the Collector returns, without raising and
    without touching the history, the first [max_items] entries of that feed
    in their order, each as a dict with the three text fields; whether the
    parser flagged a fault plays no part, so the entries it recovered from a
    faulty feed are returned as well. *)
Theorem fetch_rss_collects (url : str) (max_items : Z) (w : world) (h : list event)
        (f : feed) :
  feedparser_parse w h url = Returns f ->
  (0 <= max_items)%Z ->
  exists items,
    fetch_rss url max_items w h = (Returns items, h) /\
    items = map feed_item (firstn (Z.to_nat max_items) (entries f)) /\
    (Z.of_nat (length items) <= max_items)%Z /\
    Forall is_feed_item items.
Proof.
  intros Hf Hm. eexists. split; [apply fetch_rss_returns; exact Hf|].
  rewrite slice_to_firstn by exact Hm.
  split; [reflexivity|]. split.
  - rewrite length_map.
    pose proof (firstn_le_length (Z.to_nat max_items) (entries f)). lia.
  - apply Forall_forall. intros x Hx. apply in_map_iff in Hx.
    destruct Hx as [e [<- _]]. apply feed_item_fields.
Qed.

(** C5 as stated fails on three counts: a feed flagged as faulty that still
    holds an entry is not answered with the empty list; a negative limit
    drops entries from the end instead of bounding the count; and when the
    parser raises, so does the Collector. *)
Lemma fetch_rss_fault_counterexample :
  ~ (forall w h url max_items f,
        feedparser_parse w h url = Returns f -> bozo f = true ->
        fetch_rss url max_items w h = (Returns [], h)) /\
  ~ (forall w h url max_items items,
        fetch_rss url max_items w h = (Returns items, h) ->
        (Z.of_nat (length items) <= max_items)%Z) /\
  ~ (forall w h url max_items,
        exists items, fetch_rss url max_items w h = (Returns items, h)).
Proof.
  split; [|split].
  - intros H.
    specialize (H faulty_world [] GOOGLE_NEWS_LK 30%Z Samples.faulty_feed eq_refl eq_refl).
    discriminate H.
  - intros H.
    specialize (H (Samples.world_of []) [] GOOGLE_NEWS_LK (-1)%Z _ eq_refl).
    vm_compute in H. apply H. reflexivity.
  - intros H.
    destruct (H raising_world [] GOOGLE_NEWS_LK 30%Z) as [items Hi].
    discriminate Hi.
Qed.

(** * The properties at work

    Each property with a premise is applied to one of the sample
    environments, where the premise is checked by evaluation. *)

Import Samples.

Lemma safe_extract_json_algorithm_witness :
  (find prefixed_output (code "{") = 7%Z /\
   rfind prefixed_output (code "}") = 13%Z /\
   safe_extract_json prefixed_output = Success (VDict [(lit "a", VInt 1)])) /\
  (find bad_output (code "{") = (-1)%Z /\
   safe_extract_json bad_output = Failure bad_output (lit "No JSON detected")).
Proof.
  split.
  - split; [reflexivity|]. split; [reflexivity|].
    rewrite (proj2 (proj2 (proj2 (safe_extract_json_algorithm prefixed_output)))
               7%nat 13%nat eq_refl eq_refl).
    reflexivity.
  - split; [reflexivity|].
    apply (proj1 (proj2 (proj2 (safe_extract_json_algorithm bad_output)))).
    left; reflexivity.
Defined.

Lemma safe_extract_json_reversed_braces_witness :
  find reversed_output (code "{") = 7%Z /\
  rfind reversed_output (code "}") = 0%Z /\
  safe_extract_json reversed_output
  = Failure reversed_output
            (lit "JSON parse failed: Expecting value: line 1 column 1 (char 0)").
Proof.
  split; [reflexivity|]. split; [reflexivity|].
  apply (safe_extract_json_reversed_braces reversed_output 7%nat 0%nat eq_refl eq_refl).
  lia.
Defined.

Lemma orchestrator_generator_calls_witness :
  (let w := world_of [good_output] in
   let h := snd (run float_text w) in
   nth_error (generated h) 0 = Some (VStr good_output) /\
   ok (safe_extract_json good_output) = true /\
   exists trends news p,
     collected float_text w trends news p /\ generate_calls h = [p]) /\
  (let w := world_of [bad_output; good_output] in
   let h := snd (run float_text w) in
   nth_error (generated h) 0 = Some (VStr bad_output) /\
   ok (safe_extract_json bad_output) = false /\
   exists trends news p,
     collected float_text w trends news p /\
     generate_calls h = [p; strict_prefix ++ p]).
Proof.
  split; cbv zeta.
  - assert (H1 : nth_error (generated (snd (run float_text (world_of [good_output])))) 0
                 = Some (VStr good_output)) by (vm_compute; reflexivity).
    assert (H2 : ok (safe_extract_json good_output) = true) by (vm_compute; reflexivity).
    split; [exact H1|]. split; [exact H2|].
    exact (proj1 (proj2 (orchestrator_generator_calls float_text (world_of [good_output])))
                 good_output H1 H2).
  - assert (H1 : nth_error (generated (snd (run float_text (world_of [bad_output; good_output])))) 0
                 = Some (VStr bad_output)) by (vm_compute; reflexivity).
    assert (H2 : ok (safe_extract_json bad_output) = false) by (vm_compute; reflexivity).
    split; [exact H1|]. split; [exact H2|].
    exact (proj2 (proj2 (orchestrator_generator_calls float_text
                           (world_of [bad_output; good_output])))
                 bad_output H1 H2).
Defined.


Lemma generation_failure_aborts_witness :
  (let w := MoreSamples.world_with environ_full MoreSamples.dead_service
                                   MoreSamples.accepting_smtp in
   exists p,
     requests_post w [EvGenerate p] (generate_url (chosen_model w) (lit "k"))
                   (generate_payload p) 60
     = Raises (Foreign (lit "connection refused")) /\
     run float_text w = (Raises (Foreign (lit "connection refused")), [EvGenerate p])) /\
  (let w := world_of [bad_output] in
   exists p,
     ok (safe_extract_json bad_output) = false /\
     fst (run float_text w) = Raises (HTTPError 503) /\
     snd (run float_text w)
     = [EvGenerate p; EvGenerated (VStr bad_output); EvGenerate (strict_prefix ++ p)] /\
     send_calls (snd (run float_text w)) = [] /\
     delivered (snd (run float_text w)) = []) /\
  (let w := world_of [bad_output] in
   generation_failed (snd (run float_text w)) /\
   exists e, fst (run float_text w) = Raises e).
Proof.
  cbv zeta. split; [|split].
  - eexists. split; [reflexivity|].
    destruct (proj1 (proj2 (generation_failure_aborts float_text
                (MoreSamples.world_with environ_full MoreSamples.dead_service
                                        MoreSamples.accepting_smtp)))
                _ _ _ (lit "k") (Foreign (lit "connection refused"))
                (conj eq_refl (conj eq_refl eq_refl)) eq_refl (or_introl eq_refl))
      as [Hr [Hh _]].
    rewrite (surjective_pairing (run float_text _)), Hr, Hh. reflexivity.
  - eexists. split; [vm_compute; reflexivity|].
    assert (Hs : (400 <= 503 < 600)%Z) by lia.
    destruct (proj2 (proj2 (generation_failure_aborts float_text (world_of [bad_output])))
                _ _ _ bad_output (lit "k") (HTTPError 503)
                (conj eq_refl (conj eq_refl eq_refl))
                eq_refl eq_refl eq_refl
                (or_intror (ex_intro _ {| status_code := 503; text := [] |}
                              (conj eq_refl (conj Hs eq_refl)))))
      as [Hr [Hh [_ [Hs' Hd]]]].
    repeat split; assumption.
  - assert (H : generation_failed (snd (run float_text (world_of [bad_output]))))
      by (vm_compute; lia).
    split; [exact H|].
    destruct (proj1 (generation_failure_aborts float_text (world_of [bad_output])) H)
      as [p [h0 [e [_ [_ [Hr _]]]]]].
    exists e. exact Hr.
Defined.

Lemma successful_report_is_dict_witness :
  let report := VDict [(lit "email_subject", VStr (lit "Week 11"));
                       (lit "email_body", VStr (lit "Follow cricket."))] in
  safe_extract_json good_output = Success report /\
  last (generated (snd (run float_text (world_of [good_output])))) VNone = VStr good_output /\
  send_calls (snd (run float_text (world_of [good_output])))
  = [(VStr (lit "Week 11"), VStr (lit "Follow cricket."))].
Proof.
  cbv zeta.
  assert (H : safe_extract_json good_output
              = Success (VDict [(lit "email_subject", VStr (lit "Week 11"));
                                (lit "email_body", VStr (lit "Follow cricket."))]))
    by (vm_compute; reflexivity).
  assert (L : last (generated (snd (run float_text (world_of [good_output])))) VNone
              = VStr good_output) by (vm_compute; reflexivity).
  split; [exact H|]. split; [exact L|].
  destruct (successful_report_is_dict float_text good_output _ H)
    as [_ [subject [body [Gs [Gb Hrun]]]]].
  rewrite (Hrun _ L).
  vm_compute in Gs. vm_compute in Gb.
  injection Gs as <-. injection Gb as <-.
  reflexivity.
Defined.

Lemma build_prompt_deterministic_witness :
  strftime_Ymd monday = strftime_Ymd monday_later /\
  exists p,
    build_prompt float_text [] [] (world_at monday []) [] = (Returns p, []) /\
    build_prompt float_text [] [] (world_at monday_later []) [EvGenerate []]
    = (Returns p, [EvGenerate []]).
Proof.
  split; [reflexivity|].
  apply (build_prompt_deterministic float_text [] []
           (world_at monday []) (world_at monday_later []) [] [EvGenerate []]).
  reflexivity.
Defined.

Lemma fetch_rss_collects_witness :
  feedparser_parse faulty_world [] GOOGLE_NEWS_LK = Returns faulty_feed /\
  bozo faulty_feed = true /\
  fetch_rss GOOGLE_NEWS_LK 30 faulty_world [] = (Returns [feed_item entry1], []).
Proof.
  split; [reflexivity|]. split; [reflexivity|].
  destruct (fetch_rss_collects GOOGLE_NEWS_LK 30 faulty_world [] faulty_feed eq_refl)
    as [items [H1 [H2 _]]]; [lia|].
  rewrite H1, H2. reflexivity.
Defined.

(** * Examples

    The scenarios the specification lists for the extractor, and one run
    along each of the three ways a run that reaches the Notifier can go. *)

Example find_prefixed : find (lit "ab{c}{d}e") (code "{") = 2%Z /\ rfind (lit "ab{c}{d}e") (code "}") = 7%Z.
Proof. split; reflexivity. Qed.

Example loads_object :
  loads (litq "{`a`: 1, `b`: [true, null, -2.5e3, `x\u0041\n`], `a`: {}}")
  = inl (VDict [(lit "a", VDict []);
                (lit "b", VList [VBool true; VNone; VFloat (lit "-2.5e3");
                                 VStr [120; 65; 10]%N])]).
Proof. vm_compute. reflexivity. Qed.

Example loads_not_json :
  loads (lit "{not json}")
  = inr (lit "Expecting property name enclosed in double quotes: line 1 column 2 (char 1)").
Proof. vm_compute. reflexivity. Qed.

Example loads_empty :
  loads [] = inr (lit "Expecting value: line 1 column 1 (char 0)").
Proof. vm_compute. reflexivity. Qed.

Example loads_two_objects :
  loads (litq "{`a`:1} ... {`b`:2}") = inr (lit "Extra data: line 1 column 9 (char 8)").
Proof. vm_compute. reflexivity. Qed.

Example extract_prefixed :
  safe_extract_json prefixed_output = Success (VDict [(lit "a", VInt 1)]).
Proof. vm_compute. reflexivity. Qed.

Example extract_no_braces :
  safe_extract_json bad_output = Failure bad_output (lit "No JSON detected").
Proof. vm_compute. reflexivity. Qed.

Example extract_not_json :
  safe_extract_json (lit "{not json}")
  = Failure (lit "{not json}")
      (lit "JSON parse failed: Expecting property name enclosed in double quotes: line 1 column 2 (char 1)").
Proof. vm_compute. reflexivity. Qed.

Example extract_two_objects :
  safe_extract_json (litq "{`a`:1} ... {`b`:2}")
  = Failure (litq "{`a`:1} ... {`b`:2}")
      (lit "JSON parse failed: Extra data: line 1 column 9 (char 8)").
Proof. vm_compute. reflexivity. Qed.

Example run_first_attempt :
  let (r, h) := run float_text (world_of [good_output]) in
  r = Returns tt /\
  length (generate_calls h) = 1%nat /\
  send_calls h = [(VStr (lit "Week 11"), VStr (lit "Follow cricket."))] /\
  length (delivered h) = 1%nat.
Proof. vm_compute. repeat split. Qed.

Example run_second_attempt :
  let (r, h) := run float_text (world_of [bad_output; good_output]) in
  r = Returns tt /\
  length (generate_calls h) = 2%nat /\
  send_calls h = [(VStr (lit "Week 11"), VStr (lit "Follow cricket."))].
Proof. vm_compute. repeat split. Qed.

Example run_debug_mail :
  let (r, h) := run float_text (world_of [bad_output; bad_output]) in
  r = Returns tt /\
  length (generate_calls h) = 2%nat /\
  send_calls h
  = [(VStr error_subject,
      VStr (lit "Error: No JSON detected

Raw output:
Sorry, I cannot help with that."))].
Proof. vm_compute. repeat split. Qed.

Example run_service_down :
  let (r, h) := run float_text (world_of []) in
  r = Raises (HTTPError 503) /\
  length (generate_calls h) = 1%nat /\
  generated h = [] /\
  send_calls h = [].
Proof. vm_compute. repeat split. Qed.

Example prompt_date : strftime_Ymd monday = lit "2025-03-10".
Proof. reflexivity. Qed.

Example port_number : int (lit " 5_87 ") = Returns 587%Z /\ int (lit "5__87") = Raises ValueError.
Proof. split; reflexivity. Qed.


(** * Further properties of the script *)

Import MoreSamples.

(** ** Runs as a whole *)

Lemma notified_shape (w : world) (subject body : value) (h0 : list event)
      (r : reply unit) (h : list event) :
  notified w subject body h0 r h ->
  exists tail,
    h = h0 ++ EvSendEmail subject body :: tail /\
    ((tail = [] /\ exists e, r = Raises e) \/
     (exists m, tail = [EvDelivered m] /\ r = Returns tt)).
Proof.
  intros N. destruct N as [e H | m H Hs Hb].
  - exists []. split; [reflexivity|]. left; split; [reflexivity | exists e; reflexivity].
  - exists [EvDelivered m]. split; [reflexivity|]. right; exists m; split; reflexivity.
Qed.

(** X1. A run hands at most one mail to the Notifier and delivers at most
    one, and a delivered mail carries the subject and the body of that one
    call. *)
Theorem run_mail_at_most_once (float_repr : str -> str) (w : world) :
  let h := snd (run float_repr w) in
  (length (send_calls h) <= 1)%nat /\
  (length (delivered h) <= 1)%nat /\
  (forall m, In m (delivered h) -> send_calls h = [(mail_subject m, mail_body m)]).
Proof.
  cbv zeta. path_cases float_repr w P;
    rewrite ?Hsend; cbn [length app];
    (split; [lia|]);
    try (split; [simpl; lia | intros m Hm; simpl in Hm; contradiction]);
    (destruct Hdeliv as [[Hd _] | [m0 [Hd [_ [Hs Hb]]]]]; rewrite Hd; cbn [length app];
     (split; [lia|]); intros m Hm; simpl in Hm;
     [ contradiction
     | destruct Hm as [<- | Hm]; [rewrite Hs, Hb; reflexivity | contradiction] ]).
Qed.

(** X2. No silent success: a run that returns normally has called the
    Notifier once and delivered exactly one mail, the one of that call.
    (The converse is not claimed: the mail session can still raise after the
    server accepted the message.) *)
Theorem run_returns_only_after_delivery (float_repr : str -> str) (w : world) :
  fst (run float_repr w) = Returns tt ->
  exists m,
    delivered (snd (run float_repr w)) = [m] /\
    send_calls (snd (run float_repr w)) = [(mail_subject m, mail_body m)].
Proof.
  path_cases float_repr w P; intros Hr; try discriminate Hr;
    (destruct Hdeliv as [[Hd [e0 He]] | [m0 [Hd [_ [Hs Hb]]]]];
     [ subst r; discriminate Hr
     | exists m0; rewrite Hd, Hsend, Hs, Hb; split; reflexivity ]).
Qed.

(** X3. When the feed parser raises on either feed, the run raises the same
    exception before anything else happened: no generation call, no mail. *)
Theorem run_feed_failure_aborts (float_repr : str -> str) (w : world) (e : exn) :
  feedparser_parse w [] GOOGLE_TRENDS_DAILY_LK = Raises e \/
  (exists f, feedparser_parse w [] GOOGLE_TRENDS_DAILY_LK = Returns f /\
             feedparser_parse w [] GOOGLE_NEWS_LK = Raises e) ->
  run float_repr w = (Raises e, []).
Proof.
  intros H. unfold run, main.
  destruct H as [H | [f [H1 H2]]].
  - apply bind_raises. apply fetch_rss_raises. exact H.
  - rewrite (bind_returns _ _ _ _ _ _ _ _ (fetch_rss_returns _ 40%Z _ _ _ H1)).
    apply bind_raises. apply fetch_rss_raises. exact H2.
Qed.

(** X4. When the last value the Generator returned is not text, the run
    raises AttributeError and the Notifier is never called. *)
Theorem run_output_not_text (float_repr : str -> str) (w : world) (out : value) :
  let h := snd (run float_repr w) in
  generated h <> [] ->
  last (generated h) VNone = out ->
  (forall t, out <> VStr t) ->
  fst (run float_repr w) = Raises AttributeError /\ send_calls h = [].
Proof.
  cbv zeta. path_cases float_repr w P; intros Hne Hl Hnt;
    rewrite ?Hgen in *; cbn [last] in Hl; subst;
    try (exfalso; apply Hne; reflexivity);
    try (exfalso; eapply Hnt; reflexivity);
    split; reflexivity.
Qed.

(** X5. Whenever the last generation call returned text, exactly one mail is
    handed to the Notifier, the report or the debug mail. *)
Theorem run_notifies_when_generated (float_repr : str -> str) (w : world) (t : str) :
  let h := snd (run float_repr w) in
  ~ generation_failed h ->
  generated h <> [] ->
  last (generated h) VNone = VStr t ->
  exists subject body, send_calls h = [(subject, body)].
Proof.
  cbv zeta. unfold generation_failed.
  path_cases float_repr w P; intros Hnf Hne Hl;
    rewrite ?Hgen, ?Hcalls in *; cbn [last length] in *;
    try (exfalso; apply Hne; reflexivity);
    try (exfalso; apply Hnf; lia);
    try (subst; not_text_absurd);
    rewrite Hsend; eexists; eexists; reflexivity.
Qed.

(** X6. The mail comes last: a history splits into generation events
    followed by mail events, so nothing is generated once the Notifier was
    called. *)
Theorem run_mail_is_last (float_repr : str -> str) (w : world) :
  exists before after,
    snd (run float_repr w) = before ++ after /\
    send_calls before = [] /\ delivered before = [] /\
    generate_calls after = [] /\ generated after = [].
Proof.
  pose proof (run_follows_path float_repr w) as P.
  destruct (run float_repr w) as [r h]. cbn [fst snd] in *.
  destruct P;
    repeat match goal with
      | x := _ : list event |- _ => subst x
      | R : reported _ _ _ _ _ _ |- _ => destruct R
      | N : notified _ _ _ _ _ _ |- _ =>
          apply notified_shape in N;
          destruct N as [tail [-> [[-> _] | [m [-> _]]]]]
      end;
    try (eexists; exists []; rewrite app_nil_r; repeat split; reflexivity);
    (eexists; eexists; split; [reflexivity | repeat split; reflexivity]).
Qed.

(** X7. In a run whose last generated text extracts to a dict, the report
    mail takes its subject and its body from the entries email_subject and
    email_body of that dict, whatever values they hold; a missing subject is
    replaced by the fixed default and a missing body by the report itself,
    printed with an indent of 2. *)
Theorem run_report_mail_fields (float_repr : str -> str) (w : world)
        (text : str) (d : list (str * value)) :
  let h := snd (run float_repr w) in
  last (generated h) VNone = VStr text ->
  safe_extract_json text = Success (VDict d) ->
  send_calls h =
    [(match dict_get (lit "email_subject") d with
      | Some x => x
      | None => VStr default_subject
      end,
      match dict_get (lit "email_body") d with
      | Some x => x
      | None => VStr (dumps_indent float_repr 2 (VDict d))
      end)].
Proof.
  cbv zeta. path_cases float_repr w P; intros Hl S;
    rewrite ?Hgen in Hl; cbn [last] in Hl;
    try discriminate;
    try (injection Hl as Hl);
    subst;
    try not_text_absurd;
    same_extraction;
    rewrite Hsend;
    repeat match goal with
      | G : get (VDict d) _ _ = Returns _ |- _ =>
          unfold get in G; destruct (dict_get _ d); injection G as <-
      end;
    reflexivity.
Qed.

Lemma gemini_generate_no_key (prompt : str) (w : world) (h : list event) :
  dict_get (lit "GEMINI_API_KEY") (environ w) = None ->
  gemini_generate prompt w h
  = (Raises (KeyError (VStr (lit "GEMINI_API_KEY"))), h ++ [EvGenerate prompt]).
Proof.
  intros H. unfold gemini_generate, bind, log, environ_item. rewrite H. reflexivity.
Qed.

(** X8. Without GEMINI_API_KEY, and with both feeds read, the run raises
    KeyError for that name at the first generation call, whatever the
    service would have answered; nothing is mailed. *)
Theorem run_missing_api_key (float_repr : str -> str) (w : world) (f1 f2 : feed) :
  dict_get (lit "GEMINI_API_KEY") (environ w) = None ->
  feedparser_parse w [] GOOGLE_TRENDS_DAILY_LK = Returns f1 ->
  feedparser_parse w [] GOOGLE_NEWS_LK = Returns f2 ->
  exists p,
    run float_repr w = (Raises (KeyError (VStr (lit "GEMINI_API_KEY"))), [EvGenerate p]).
Proof.
  intros Hk H1 H2. unfold run, main.
  rewrite (bind_returns _ _ _ _ _ _ _ _ (fetch_rss_returns _ 40%Z _ _ _ H1)).
  rewrite (bind_returns _ _ _ _ _ _ _ _ (fetch_rss_returns _ 30%Z _ _ _ H2)).
  eexists.
  rewrite (bind_returns _ _ _ _ _ _ _ _ eq_refl).
  apply bind_raises. apply (gemini_generate_no_key _ w [] Hk).
Qed.

(** A decoded answer that holds a text makes the generation call return it. *)
Lemma gemini_generate_decoded (prompt : str) (w : world) (h : list event)
      (out : value) (api_key : str) (r : response) (data : value) :
  dict_get (lit "GEMINI_API_KEY") (environ w) = Some api_key ->
  requests_post w (h ++ [EvGenerate prompt])
                (generate_url (chosen_model w) api_key) (generate_payload prompt) 60
  = Returns r ->
  ((400 <=? status_code r)%Z && (status_code r <? 600)%Z = false) ->
  loads (text r) = inl data ->
  first_text data = Some out ->
  gemini_generate prompt w h = (Returns out, h ++ [EvGenerate prompt; EvGenerated out]).
Proof.
  unfold gemini_generate, raise_for_status, response_json, chosen_model, first_text,
    bind, log, environ_item, environ_get, lift, ret, raise.
  intros Hk Hp Hs Hl Hf.
    rewrite Hk.
  destruct (dict_get (lit "GEMINI_MODEL") (environ w)) as [m|];
    (rewrite Hp, Hs, Hl;
     destruct data as [| | | | | |d]; try discriminate;
     unfold getitem, getitem0;
     step_cases; try discriminate;
     repeat match goal with
       | E : Returns _ = Returns _ |- _ => injection E as ?; subst
       | E : Some _ = Some _ |- _ => injection E as ?; subst
       end;
     try discriminate; try congruence;
     rewrite <- ?app_assoc; try reflexivity).
Qed.

(** X9. A generation call returns exactly when the key is set, the service
    answers with a status outside 400 to 599 and a body that decodes, and
    the decoded body holds a text at the first part of the content of the
    first candidate; the call returns that value. *)
Theorem gemini_generate_returns_iff (prompt : str) (w : world) (h : list event)
        (out : value) :
  gemini_generate prompt w h = (Returns out, h ++ [EvGenerate prompt; EvGenerated out])
  <->
  exists api_key r data,
    dict_get (lit "GEMINI_API_KEY") (environ w) = Some api_key /\
    requests_post w (h ++ [EvGenerate prompt])
                  (generate_url (chosen_model w) api_key) (generate_payload prompt) 60
    = Returns r /\
    ((400 <=? status_code r)%Z && (status_code r <? 600)%Z = false) /\
    loads (text r) = inl data /\
    first_text data = Some out.
Proof.
  split.
  - intros H.
    unfold gemini_generate, raise_for_status, response_json, chosen_model, first_text,
      bind, log, environ_item, environ_get, lift, ret, raise in *.
    destruct (dict_get (lit "GEMINI_API_KEY") (environ w)) as [api_key|]; [|discriminate].
    exists api_key.
    destruct (dict_get (lit "GEMINI_MODEL") (environ w)) as [m|];
      (destruct (requests_post _ _ _ _ _) as [r|e]; [|discriminate];
       exists r;
       destruct (_ && _); [discriminate|];
       destruct (loads (text r)) as [data|e]; [|discriminate];
       exists data;
       split; [reflexivity|]; split; [reflexivity|]; split; [reflexivity|];
       split; [reflexivity|];
       unfold getitem, getitem0 in *;
       step_cases; try discriminate;
       repeat match goal with
         | E : Returns _ = Returns _ |- _ => injection E as ?; subst
         end;
       try discriminate; try congruence).
  - intros [api_key [r [data [Hk [Hp [Hs [Hl Hf]]]]]]].
    fold (chosen_model w) in Hp.
    exact (gemini_generate_decoded prompt w h out api_key r data Hk Hp Hs Hl Hf).
Qed.

(** ** The Notifier *)

(** With complete settings and a mail service that accepts, the call of the
    Notifier returns and the mail is delivered. *)
Lemma send_email_accepted (w : world) (h : list event) (m : mail) :
  mail_settings w m ->
  smtp_transaction w (h ++ [EvSendEmail (mail_subject m) (mail_body m)]) m = None ->
  send_email (mail_subject m) (mail_body m) w h
  = (Returns tt, h ++ [EvSendEmail (mail_subject m) (mail_body m); EvDelivered m]).
Proof.
  unfold send_email, mail_settings, bind, log, environ_item, environ_get, lift.
  intros [Hh [Hp [Hu [Hw [Ht Hf]]]]] Hx.
  destruct m as [host port user pass from to s b].
  cbn [smtp_host smtp_port smtp_user smtp_pass from_email to_email
       mail_subject mail_body] in *.
  rewrite Hh, Hu, Hw, Ht.
  destruct (dict_get (lit "SMTP_PORT") (environ w));
    destruct (dict_get (lit "FROM_EMAIL") (environ w));
    subst from; rewrite Hp, Hx, <- app_assoc; reflexivity.
Qed.

(** A call of the Notifier that returns has delivered a mail built from
    complete settings. *)
Lemma send_email_returned (subject body : value) (w : world) (h h' : list event) :
  send_email subject body w h = (Returns tt, h') ->
  exists m,
    h' = h ++ [EvSendEmail subject body; EvDelivered m] /\
    mail_settings w m /\
    mail_subject m = subject /\ mail_body m = body /\
    smtp_transaction w (h ++ [EvSendEmail subject body]) m = None.
Proof.
  intros H.
  unfold send_email, mail_settings, bind, log, environ_item, environ_get, lift in *.
  step_cases; try discriminate.
  all: injection H as <-; eexists;
    (split; [rewrite <- app_assoc; reflexivity|]);
    cbn; repeat split; try reflexivity; try assumption.
Qed.

(** X10. A call of the Notifier returns exactly when the settings are
    complete and the mail service accepts the mail built from them; that
    mail, with the subject and the body of the call, is then the one
    delivered. *)
Theorem send_email_returns_iff (subject body : value) (w : world) (h h' : list event) :
  send_email subject body w h = (Returns tt, h')
  <->
  exists m,
    h' = h ++ [EvSendEmail subject body; EvDelivered m] /\
    mail_settings w m /\
    mail_subject m = subject /\ mail_body m = body /\
    smtp_transaction w (h ++ [EvSendEmail subject body]) m = None.
Proof.
  split.
  - apply send_email_returned.
  - intros [m [-> [Hm [<- [<- Hx]]]]].
    exact (send_email_accepted w h m Hm Hx).
Qed.

Lemma int_raises_value_error (s : str) (e : exn) : int s = Raises e -> e = ValueError.
Proof.
  unfold int. intros H.
  destruct (strip s) as [|c r]; [congruence|].
  destruct (char_eqb c 45); [destruct (int_digits 0 false r); congruence|].
  destruct (char_eqb c 43); [destruct (int_digits 0 false r); congruence|].
  destruct (int_digits 0 false (c :: r)); congruence.
Qed.

(** X11. When a required setting is missing, or the port is not a number,
    the Notifier raises KeyError or ValueError after logging the call, and
    nothing is delivered, whatever the mail service would have done. *)
Theorem send_email_bad_settings (subject body : value) (w : world) (h : list event) :
  (exists name, In name required_mail_settings /\ dict_get name (environ w) = None) \/
  int (match dict_get (lit "SMTP_PORT") (environ w) with
       | Some p => p
       | None => lit "587"
       end) = Raises ValueError ->
  exists e,
    send_email subject body w h = (Raises e, h ++ [EvSendEmail subject body]) /\
    (e = ValueError \/
     exists name, In name required_mail_settings /\ e = KeyError (VStr name)).
Proof.
  unfold required_mail_settings.
  intros H.
  unfold send_email, bind, log, environ_item, environ_get, lift.
  assert (K : forall name, In name [lit "SMTP_HOST"; lit "SMTP_USER"; lit "SMTP_PASS";
                                    lit "TO_EMAIL"] ->
              exists e, (Raises e : reply unit, h ++ [EvSendEmail subject body])
                        = (Raises (KeyError (VStr name)), h ++ [EvSendEmail subject body]) /\
                        (e = ValueError \/
                         exists name', In name' [lit "SMTP_HOST"; lit "SMTP_USER";
                                                 lit "SMTP_PASS"; lit "TO_EMAIL"] /\
                                       e = KeyError (VStr name'))).
  { intros name Hin. eexists; split; [reflexivity|]. right; exists name; split;
      [exact Hin | reflexivity]. }
  destruct (dict_get (lit "SMTP_HOST") (environ w)) as [host|] eqn:Eh.
  2: { destruct (K (lit "SMTP_HOST")) as [e [E1 E2]]; [simpl; tauto|].
       exists e; split; [symmetry; exact E1 | exact E2]. }
  destruct (dict_get (lit "SMTP_PORT") (environ w)) as [pt|] eqn:Eport.
  all: destruct (int _) as [port|e] eqn:Ep.
  all: try (apply int_raises_value_error in Ep; subst e;
            eexists; split; [reflexivity | left; reflexivity]).
  all: destruct (dict_get (lit "SMTP_USER") (environ w)) as [user|] eqn:Eu;
    [| destruct (K (lit "SMTP_USER")) as [e [E1 E2]]; [simpl; tauto|];
       exists e; split; [symmetry; exact E1 | exact E2] ].
  all: destruct (dict_get (lit "SMTP_PASS") (environ w)) as [pass|] eqn:Ew;
    [| destruct (K (lit "SMTP_PASS")) as [e [E1 E2]]; [simpl; tauto|];
       exists e; split; [symmetry; exact E1 | exact E2] ].
  all: destruct (dict_get (lit "TO_EMAIL") (environ w)) as [to|] eqn:Et;
    [| destruct (K (lit "TO_EMAIL")) as [e [E1 E2]]; [simpl; tauto|];
       exists e; split; [symmetry; exact E1 | exact E2] ].
  all: exfalso; destruct H as [[name [Hin Hn]] | Hv]; [|congruence];
    simpl in Hin; destruct Hin as [<- | [<- | [<- | [<- | []]]]]; congruence.
Qed.

(** ** The Feed Collector *)

Lemma slice_to_negative (A : Type) (l : list A) (n : Z) :
  (n < 0)%Z -> slice_to l n = firstn (length l - Z.to_nat (- n)) l.
Proof.
  intros Hn. unfold slice_to, slice, clamp.
  destruct (Z.ltb_spec 0 0) as [H | _]; [lia|].
  destruct (Z.ltb_spec n 0) as [_ | H]; [|lia].
  rewrite (Z.min_l 0) by lia. simpl skipn. rewrite Z.sub_0_r.
  f_equal. lia.
Qed.

(** X12. A negative limit does not bound the count: the Collector then
    returns all the entries but the last [- max_items] of them (none when
    the feed has no more than that). *)
Theorem fetch_rss_negative_limit (url : str) (max_items : Z) (w : world)
        (h : list event) (f : feed) :
  feedparser_parse w h url = Returns f ->
  (max_items < 0)%Z ->
  fetch_rss url max_items w h
  = (Returns (map feed_item
                  (firstn (length (entries f) - Z.to_nat (- max_items)) (entries f))), h).
Proof.
  intros Hf Hm. rewrite (fetch_rss_returns url max_items w h f Hf).
  rewrite slice_to_negative by exact Hm. reflexivity.
Qed.

(** ** The JSON Extractor *)

Lemma first_at_unique (c : char) (s : str) (i j : nat) :
  first_at c s i -> first_at c s j -> i = j.
Proof.
  intros [Hi Ni] [Hj Nj].
  destruct (Nat.lt_trichotomy i j) as [H | [H | H]]; [|exact H|].
  - exfalso. exact (Nj i H Hi).
  - exfalso. exact (Ni j H Hj).
Qed.

Lemma last_at_unique (c : char) (s : str) (i j : nat) :
  last_at c s i -> last_at c s j -> i = j.
Proof.
  intros [Hi Ni] [Hj Nj].
  destruct (Nat.lt_trichotomy i j) as [H | [H | H]]; [|exact H|].
  - exfalso. exact (Ni j H Hj).
  - exfalso. exact (Nj i H Hi).
Qed.

Lemma find_of_first_at (s : str) (c : char) (i : nat) :
  first_at c s i -> find s c = Z.of_nat i.
Proof.
  intros H. destruct (find_spec s c) as [[_ Hn] | [k [Hk Hf]]].
  - exfalso. apply Hn. eapply nth_error_In. exact (proj1 H).
  - rewrite Hk. f_equal. eapply first_at_unique; eassumption.
Qed.

Lemma rfind_of_last_at (s : str) (c : char) (j : nat) :
  last_at c s j -> rfind s c = Z.of_nat j.
Proof.
  intros H. destruct (rfind_spec s c) as [[_ Hn] | [k [Hk Hf]]].
  - exfalso. apply Hn. eapply nth_error_In. exact (proj1 H).
  - rewrite Hk. f_equal. eapply last_at_unique; eassumption.
Qed.

Lemma not_in_nth_error (c : char) (s : str) (k : nat) :
  ~ In c s -> nth_error s k <> Some c.
Proof. intros Hn H. apply Hn. eapply nth_error_In; exact H. Qed.

Lemma first_at_wrapped (c : char) (pre s suf : str) (i : nat) :
  ~ In c pre -> first_at c s i -> first_at c (pre ++ s ++ suf) (length pre + i).
Proof.
  intros Hn [Hi Ni]. split.
  - rewrite nth_error_app2 by lia.
    replace (length pre + i - length pre)%nat with i by lia.
    rewrite nth_error_app1 by (eapply nth_error_lt; exact Hi). exact Hi.
  - intros k Hk.
    destruct (Nat.lt_ge_cases k (length pre)) as [H | H].
    + rewrite nth_error_app1 by exact H. apply not_in_nth_error, Hn.
    + rewrite nth_error_app2 by exact H.
      assert (Hlt : (k - length pre < i)%nat) by lia.
      rewrite nth_error_app1
        by (apply Nat.lt_trans with i; [exact Hlt | eapply nth_error_lt; exact Hi]).
      apply Ni, Hlt.
Qed.

Lemma last_at_wrapped (c : char) (pre s suf : str) (j : nat) :
  ~ In c suf -> last_at c s j -> last_at c (pre ++ s ++ suf) (length pre + j).
Proof.
  intros Hn [Hj Nj]. split.
  - rewrite nth_error_app2 by lia.
    replace (length pre + j - length pre)%nat with j by lia.
    rewrite nth_error_app1 by (eapply nth_error_lt; exact Hj). exact Hj.
  - intros k Hk.
    rewrite nth_error_app2 by lia.
    destruct (Nat.lt_ge_cases (k - length pre) (length s)) as [H | H].
    + rewrite nth_error_app1 by exact H. apply Nj. lia.
    + rewrite nth_error_app2 by exact H. apply not_in_nth_error, Hn.
Qed.

Lemma span_wrapped (pre s suf : str) (i j : nat) :
  (i < length s)%nat -> (j < length s)%nat ->
  span (pre ++ s ++ suf) (length pre + i) (length pre + j) = span s i j.
Proof.
  intros Hi Hj. unfold span.
  replace (S (length pre + j) - (length pre + i))%nat with (S j - i)%nat by lia.
  rewrite skipn_app.
  rewrite (skipn_all2 pre) by lia. cbn [app].
  replace (length pre + i - length pre)%nat with i by lia.
  rewrite skipn_app.
  rewrite firstn_app.
  rewrite length_skipn.
  replace (S j - i - (length s - i))%nat with 0%nat by lia.
  cbn [firstn]. apply app_nil_r.
Qed.

(** The outcome of the extraction looks only at what lies between the
    braces. *)
Lemma extract_wrapped (pre text suf : str) :
  ~ In (code "{") pre ->
  ~ In (code "}") suf ->
  In (code "{") text ->
  In (code "}") text ->
  safe_extract_json (pre ++ text ++ suf) =
    match safe_extract_json text with
    | Success report => Success report
    | Failure _ error => Failure (pre ++ text ++ suf) error
    end.
Proof.
  intros Hpre Hsuf Ho Hc.
  destruct (find_spec text (code "{")) as [[_ Hn] | [i [Hi Hfi]]]; [contradiction|].
  destruct (rfind_spec text (code "}")) as [[_ Hn] | [j [Hj Hlj]]]; [contradiction|].
  rewrite (safe_extract_json_found text i j Hi Hj).
  rewrite (safe_extract_json_found (pre ++ text ++ suf) (length pre + i) (length pre + j)
             (find_of_first_at _ _ _ (first_at_wrapped _ pre text suf i Hpre Hfi))
             (rfind_of_last_at _ _ _ (last_at_wrapped _ pre text suf j Hsuf Hlj))).
  rewrite span_wrapped;
    [| eapply nth_error_lt; exact (proj1 Hfi) | eapply nth_error_lt; exact (proj1 Hlj)].
  destruct (loads (span text i j)); reflexivity.
Qed.

(** X13. Text around the braces does not count: a prefix without an opening
    brace and a suffix without a closing brace, put around a text that holds
    both braces, leave the outcome of the extraction as it is, the report or
    the reason of the failure. *)
Theorem safe_extract_json_wrapped (pre text suf : str) :
  ~ In (code "{") pre ->
  ~ In (code "}") suf ->
  In (code "{") text ->
  In (code "}") text ->
  safe_extract_json (pre ++ text ++ suf) =
    match safe_extract_json text with
    | Success report => Success report
    | Failure _ error => Failure (pre ++ text ++ suf) error
    end.
Proof. apply extract_wrapped. Qed.

(** X14. The reason No JSON detected is given exactly when the text has no
    opening brace or no closing brace; every other failure is a decoding
    failure. *)
Theorem no_json_detected_iff (text : str) :
  safe_extract_json text = Failure text (lit "No JSON detected")
  <-> (~ In (code "{") text \/ ~ In (code "}") text).
Proof.
  split.
  - intros H.
    destruct (find_spec text (code "{")) as [[_ Hn] | [i [Hi Hfi]]]; [left; exact Hn|].
    destruct (rfind_spec text (code "}")) as [[_ Hn] | [j [Hj Hlj]]]; [right; exact Hn|].
    rewrite (safe_extract_json_found text i j Hi Hj) in H.
    destruct (loads (span text i j)); discriminate H.
  - intros H. apply safe_extract_json_missing.
    destruct H as [H | H].
    + left. destruct (find_spec text (code "{")) as [[E _] | [i [_ [Hi _]]]]; [exact E|].
      exfalso. apply H. eapply nth_error_In; exact Hi.
    + right. destruct (rfind_spec text (code "}")) as [[E _] | [j [_ [Hj _]]]]; [exact E|].
      exfalso. apply H. eapply nth_error_In; exact Hj.
Qed.

(** ** Printing and reading back *)

Lemma str_eqb_eq (a b : str) : str_eqb a b = true <-> a = b.
Proof.
  revert b; induction a as [|x a IH]; intros [|y b]; simpl;
    try (split; [discriminate | discriminate]); [tauto|].
  rewrite andb_true_iff, char_eqb_eq, IH.
  split; [intros [-> ->]; reflexivity | intros [= -> ->]; tauto].
Qed.

Lemma control_char_hex (c : char) :
  (c < 32)%N ->
  hex4 48 48 (hex_char (c / 16)) (hex_char (c mod 16)) = Some c.
Proof.
  intros H.
  assert (A : forallb (fun n => match hex4 48 48 (hex_char (n / 16)) (hex_char (n mod 16)) with
                                | Some x => N.eqb x n
                                | None => false
                                end)
                      (map N.of_nat (seq 0 32)) = true) by (vm_compute; reflexivity).
  rewrite forallb_forall in A.
  specialize (A c).
  destruct (hex4 48 48 (hex_char (c / 16)) (hex_char (c mod 16))) as [x|].
  - f_equal. apply N.eqb_eq. apply A.
    apply in_map_iff. exists (N.to_nat c). split; [apply N2Nat.id|].
    apply in_seq. lia.
  - assert (false = true); [|discriminate]. apply A.
    apply in_map_iff. exists (N.to_nat c). split; [apply N2Nat.id|].
    apply in_seq. lia.
Qed.

(** A printed string reads back: the closing quote ends it, and every
    escape the encoder writes is one the decoder undoes. *)
Lemma scanstring_encoded (s : str) :
  forall begin acc rest,
    scanstring begin acc (flat_map escape_char s ++ dquote :: rest)
    = Scanned (acc ++ s) rest.
Proof.
  induction s as [|c s IH]; intros begin acc rest.
  - simpl. rewrite app_nil_r. reflexivity.
  - cbn [flat_map]. rewrite <- app_assoc.
    replace (acc ++ c :: s) with ((acc ++ [c]) ++ s) by (rewrite <- app_assoc; reflexivity).
    unfold escape_char at 1.
    destruct (char_eqb c dquote) eqn:E1.
    { apply char_eqb_eq in E1; subst c. cbn. apply IH. }
    destruct (char_eqb c 92) eqn:E2.
    { apply char_eqb_eq in E2; subst c. cbn. apply IH. }
    destruct (char_eqb c 10) eqn:E3.
    { apply char_eqb_eq in E3; subst c. cbn. apply IH. }
    destruct (char_eqb c 13) eqn:E4.
    { apply char_eqb_eq in E4; subst c. cbn. apply IH. }
    destruct (char_eqb c 9) eqn:E5.
    { apply char_eqb_eq in E5; subst c. cbn. apply IH. }
    destruct (char_eqb c 8) eqn:E6.
    { apply char_eqb_eq in E6; subst c. cbn. apply IH. }
    destruct (char_eqb c 12) eqn:E7.
    { apply char_eqb_eq in E7; subst c. cbn. apply IH. }
    destruct (N.ltb c 32) eqn:E8.
    { apply N.ltb_lt in E8.
      pose proof (control_char_hex c E8) as Hx.
      assert (Hs : is_high_surrogate c = false).
      { unfold is_high_surrogate. apply andb_false_iff. left. apply N.leb_gt. lia. }
      change (lit "\u00" ++ [hex_char (c / 16); hex_char (c mod 16)])
        with [92; 117; 48; 48; hex_char (c / 16); hex_char (c mod 16)]%N.
      cbn [app].
      assert (G : scanstring begin (acc ++ [c]) (flat_map escape_char s ++ dquote :: rest)
                  = Scanned ((acc ++ [c]) ++ s) rest) by apply IH.
      remember (flat_map escape_char s ++ dquote :: rest) as r2 eqn:Et in *.
      destruct r2 as [|x t].
      { destruct (flat_map escape_char s); discriminate Et. }
      cbn [scanstring char_eqb]. cbn [N.eqb Pos.eqb dquote].
      rewrite Hx, Hs. cbn [andb].
      destruct t as [|u [|g1 [|g2 [|g3 [|g4 [|g5 t]]]]]]; exact G. }
    cbn [app scanstring]. rewrite E1, E2.
    apply N.ltb_ge in E8.
    destruct (N.leb_spec c 31) as [H | _]; [lia|].
    apply IH.
Qed.

(** *** Integers *)

(** The digits of a decimal numeral, as characters. *)
Lemma uint_digits_span (d : Decimal.uint) (rest : str) :
  number_stops rest = true ->
  span_digits (lit (NilEmpty.string_of_uint d) ++ rest)
  = (lit (NilEmpty.string_of_uint d), rest).
Proof.
  intros Hr. induction d; cbn -[span_digits];
    try (cbn [span_digits]; change (lit (NilEmpty.string_of_uint d))
           with (map code (list_ascii_of_string (NilEmpty.string_of_uint d))) in IHd;
         cbn [is_digit N.leb N.compare Pos.compare Pos.compare_cont andb];
         rewrite IHd; reflexivity).
  destruct rest as [|c r]; [reflexivity|].
  cbn [span_digits]. unfold number_stops in Hr.
  destruct (is_digit c); [discriminate Hr | reflexivity].
Qed.

Lemma uint_digits_value_acc (d : Decimal.uint) :
  forall p,
    fold_left (fun acc c => (acc * 10 + (Z.of_N c - 48))%Z)
              (lit (NilEmpty.string_of_uint d)) (Zpos p)
    = Zpos (Pos.of_uint_acc d p).
Proof.
  induction d; intros p;
    cbn [lit NilEmpty.string_of_uint list_ascii_of_string map fold_left Pos.of_uint_acc];
    try reflexivity;
    match goal with
    | |- fold_left ?f ?l ?a = Zpos (Pos.of_uint_acc _ ?q) =>
        replace a with (Zpos q) by (vm_compute (Z.of_N _ - 48)%Z; lia)
    end;
    apply IHd.
Qed.

Lemma uint_digits_value (d : Decimal.uint) :
  digits_value (lit (NilEmpty.string_of_uint d)) = Z.of_N (Pos.of_uint d).
Proof.
  unfold digits_value. induction d;
    cbn [lit NilEmpty.string_of_uint list_ascii_of_string map fold_left Pos.of_uint];
    try reflexivity; try exact IHd;
    exact (uint_digits_value_acc d _).
Qed.

(** The numeral of a positive number starts with a digit that is not 0. *)
Lemma to_uint_no_leading_zero (p : positive) (u : Decimal.uint) :
  Pos.to_uint p <> Decimal.D0 u.
Proof.
  intros H.
  pose proof (DecimalPos.Unsigned.to_of (Pos.to_uint p)) as T.
  rewrite DecimalPos.Unsigned.of_to in T. cbn [N.to_uint] in T.
  rewrite H in T. rewrite DecimalFacts.unorm_D0 in T.
  destruct u as [| | | | | | | | | |] eqn:Eu;
    try (pose proof (DecimalFacts.nb_digits_unorm u) as L;
         rewrite Eu in L; rewrite <- T in L;
         specialize (L ltac:(discriminate)); cbn in L; lia).
  apply (DecimalPos.Unsigned.to_uint_nonzero p). exact H.
Qed.

Lemma match_frac_stops (rest : str) :
  number_stops rest = true -> match_frac rest = ([], rest).
Proof.
  destruct rest as [|c r]; [reflexivity|]. unfold number_stops, match_frac.
  intros H. apply negb_true_iff in H.
  rewrite !orb_false_iff in H. destruct H as [[[_ H] _] _].
  rewrite H. reflexivity.
Qed.

Lemma match_exp_stops (rest : str) :
  number_stops rest = true -> match_exp rest = ([], rest).
Proof.
  destruct rest as [|c r]; [reflexivity|]. unfold number_stops, match_exp.
  intros H. apply negb_true_iff in H.
  rewrite !orb_false_iff in H. destruct H as [[[_ _] H1] H2].
  rewrite H1, H2. reflexivity.
Qed.

(** The digits of a positive number, read as an integer token. *)
Lemma positive_token (p : positive) (rest : str) :
  number_stops rest = true ->
  let tok := lit (NilEmpty.string_of_uint (Pos.to_uint p)) in
  match_integer (tok ++ rest) = Some (tok, rest) /\
  match_integer (45%N :: tok ++ rest) = Some (45%N :: tok, rest) /\
  digits_value tok = Zpos p /\
  exists c t, tok = c :: t /\ is_digit c = true.
Proof.
  intros Hr tok.
  assert (V : digits_value tok = Zpos p).
  { unfold tok. rewrite uint_digits_value, DecimalPos.Unsigned.of_to. reflexivity. }
  unfold tok in *. clear tok.
  pose proof (to_uint_no_leading_zero p) as Hz.
  pose proof (DecimalPos.Unsigned.to_uint_nonnil p) as Hn.
  destruct (Pos.to_uint p) as [|u|u|u|u|u|u|u|u|u|u];
    [ contradiction | exfalso; eapply Hz; reflexivity | .. ];
    (split; [| split; [| split; [exact V|] ] ];
     [ unfold match_integer;
       cbn [lit NilEmpty.string_of_uint list_ascii_of_string map app];
       cbn [code N_of_ascii N_of_digits char_eqb is_digit N.eqb N.leb N.compare
            Pos.eqb Pos.compare Pos.compare_cont andb N.add N.mul Pos.add Pos.mul
            Pos.succ];
       change (map code (list_ascii_of_string (NilEmpty.string_of_uint u)))
         with (lit (NilEmpty.string_of_uint u));
       rewrite (uint_digits_span u rest Hr); reflexivity
     | unfold match_integer;
       cbn [lit NilEmpty.string_of_uint list_ascii_of_string map app];
       cbn [code N_of_ascii N_of_digits char_eqb is_digit N.eqb N.leb N.compare
            Pos.eqb Pos.compare Pos.compare_cont andb N.add N.mul Pos.add Pos.mul
            Pos.succ];
       change (map code (list_ascii_of_string (NilEmpty.string_of_uint u)))
         with (lit (NilEmpty.string_of_uint u));
       rewrite (uint_digits_span u rest Hr); reflexivity
     | eexists; eexists; split; reflexivity ]).
Qed.

(** A printed integer reads back, when what follows does not extend it. *)
Lemma match_number_printed (z : Z) (rest : str) :
  number_stops rest = true ->
  match_number (str_of_Z z ++ rest) = Some (VInt z, rest) /\
  exists c t, str_of_Z z = c :: t /\ (is_digit c = true \/ c = 45%N).
Proof.
  intros Hr. unfold match_number.
  destruct z as [|p|p].
  - split; [|exists 48%N, []; split; [reflexivity | left; reflexivity]].
    change (str_of_Z 0 ++ rest) with (48%N :: rest).
    change (match_integer (48%N :: rest)) with (Some ([48%N], rest)).
    cbv beta iota.
    rewrite (match_frac_stops rest Hr), (match_exp_stops rest Hr). reflexivity.
  - destruct (positive_token p rest Hr) as [M [_ [V [c [t [E D]]]]]].
    assert (S : str_of_Z (Zpos p) = lit (NilEmpty.string_of_uint (Pos.to_uint p))).
    { unfold str_of_Z. cbn [Z.to_int NilZero.string_of_int NilZero.string_of_uint].
      pose proof (DecimalPos.Unsigned.to_uint_nonnil p).
      destruct (Pos.to_uint p); [contradiction | reflexivity ..]. }
    rewrite S. split; [|exists c, t; split; [exact E | left; exact D]].
    rewrite M, (match_frac_stops rest Hr), (match_exp_stops rest Hr).
    unfold int_of_token. rewrite E in *.
    destruct (char_eqb c 45) eqn:E45.
    { apply char_eqb_eq in E45. subst c. discriminate D. }
    rewrite V. reflexivity.
  - destruct (positive_token p rest Hr) as [_ [M [V _]]].
    assert (S : str_of_Z (Zneg p) = 45%N :: lit (NilEmpty.string_of_uint (Pos.to_uint p))).
    { unfold str_of_Z. cbn [Z.to_int NilZero.string_of_int NilZero.string_of_uint].
      pose proof (DecimalPos.Unsigned.to_uint_nonnil p).
      destruct (Pos.to_uint p); [contradiction | reflexivity ..]. }
    rewrite S. split; [|eexists; eexists; split; [reflexivity | right; reflexivity]].
    rewrite <- app_comm_cons.
    match goal with
    | |- context [match_integer ?x] =>
        let H := fresh in
        assert (H : match_integer x
                    = Some (45%N :: lit (NilEmpty.string_of_uint (Pos.to_uint p)), rest))
          by exact M;
        rewrite H
    end.
    rewrite (match_frac_stops rest Hr), (match_exp_stops rest Hr).
    unfold int_of_token. cbn [char_eqb N.eqb Pos.eqb]. rewrite V. reflexivity.
Qed.

(** *** Values *)

Lemma value_ind_nested (P : value -> Prop) :
  P VNone ->
  (forall b, P (VBool b)) ->
  (forall z, P (VInt z)) ->
  (forall tok, P (VFloat tok)) ->
  (forall s, P (VStr s)) ->
  (forall l, Forall P l -> P (VList l)) ->
  (forall d, Forall (fun kv : str * value => P (snd kv)) d -> P (VDict d)) ->
  forall v, P v.
Proof.
  intros HN HB HI HF HS HL HD.
  fix IH 1. intros [| b | z | tok | s | l | d].
  - exact HN.
  - apply HB.
  - apply HI.
  - apply HF.
  - apply HS.
  - apply HL. induction l as [|x l IHl]; constructor; [apply IH | exact IHl].
  - apply HD. induction d as [|[k x] d IHd]; constructor; [apply IH | exact IHd].
Qed.

Lemma digit_or_minus (c : char) :
  is_digit c = true \/ c = 45%N ->
  char_eqb c dquote = false /\ char_eqb c 123 = false /\ char_eqb c 91 = false /\
  char_eqb 110 c = false /\ char_eqb 116 c = false /\ char_eqb 102 c = false /\
  is_ws c = false /\ char_eqb c 93 = false /\ char_eqb c 65279 = false.
Proof.
  intros H.
  assert (R : (45 <= c <= 57)%N).
  { destruct H as [H | ->]; [|lia]. unfold is_digit in H.
    apply andb_true_iff in H. destruct H as [H1 H2].
    apply N.leb_le in H1, H2. lia. }
  unfold is_ws, char_eqb, dquote.
  repeat match goal with
    | |- _ /\ _ => split
    | |- _ || _ = false => apply orb_false_iff; split
    | |- N.eqb _ _ = false => apply N.eqb_neq; lia
    end.
Qed.

Lemma scan_once_int (fuel : nat) (z : Z) (rest : str) :
  number_stops rest = true ->
  scan_once (S fuel) (str_of_Z z ++ rest) = Scanned (VInt z) rest.
Proof.
  intros Hr.
  destruct (match_number_printed z rest Hr) as [M [c [t [E Hd]]]].
  destruct (digit_or_minus c Hd) as (D1 & D2 & D3 & D4 & D5 & D6 & _).
  rewrite E in *. cbn [app scan_once] in *.
  rewrite D1, D2, D3.
  unfold scan_atom. cbn [fold_right].
  unfold match_word at 1 2 3.
  cbn [lit list_ascii_of_string map startswith].
  change (code "n") with 110%N. change (code "t") with 116%N.
  change (code "f") with 102%N.
  rewrite D4, D5, D6. cbn [andb].
  rewrite M. reflexivity.
Qed.

Lemma skip_ws_stop (c : char) (t : str) : is_ws c = false -> skip_ws (c :: t) = c :: t.
Proof. intros H. cbn [skip_ws]. rewrite H. reflexivity. Qed.

Lemma skip_ws_spaces (n : nat) (s : str) : skip_ws (repeat 32%N n ++ s) = skip_ws s.
Proof. induction n as [|n IH]; [reflexivity | exact IH]. Qed.

Lemma skip_ws_newline (indent : option nat) (level : nat) (s : str) :
  skip_ws (newline_indent indent level ++ s) = skip_ws s.
Proof.
  destruct indent as [n|]; [|reflexivity].
  unfold newline_indent. cbn [app skip_ws].
  change (is_ws 10) with true. cbv iota. apply skip_ws_spaces.
Qed.

Lemma number_stops_newline (indent : option nat) (level : nat) (c : char) (s : str) :
  number_stops (c :: s) = true ->
  number_stops (newline_indent indent level ++ c :: s) = true.
Proof. destruct indent; intros H; [reflexivity | exact H]. Qed.

Lemma separator_next (indent : option nat) (level : nat) (s : str) :
  exists r,
    item_separator indent ++ newline_indent indent level ++ s = 44%N :: r /\
    skip_ws r = skip_ws s.
Proof.
  destruct indent as [n|].
  - exists (newline_indent (Some n) level ++ s). split; [reflexivity|].
    apply skip_ws_newline.
  - exists (32%N :: s). split; reflexivity.
Qed.

(** *** Dicts with distinct keys *)

Lemma str_eqb_neq (a b : str) : str_eqb a b = false <-> a <> b.
Proof.
  rewrite <- str_eqb_eq. destruct (str_eqb a b); split; congruence.
Qed.

Lemma fresh_key_in (V : Type) (k : str) (d : list (str * V)) :
  fresh_key k d = true -> forall k' v, In (k', v) d -> k' <> k.
Proof.
  induction d as [|[k0 v0] d IH]; intros H k' v Hin; [contradiction|].
  cbn [fresh_key] in H. apply andb_true_iff in H. destruct H as [H1 H2].
  destruct Hin as [E | Hin].
  - injection E as <- <-. apply str_eqb_neq. apply negb_true_iff. exact H1.
  - eapply IH; eassumption.
Qed.

Lemma dict_set_new (V : Type) (k : str) (v : V) (d : list (str * V)) :
  (forall k' v', In (k', v') d -> k' <> k) -> dict_set k v d = d ++ [(k, v)].
Proof.
  induction d as [|[k0 v0] d IH]; intros H; [reflexivity|].
  cbn [dict_set app].
  assert (E : str_eqb k0 k = false) by (apply str_eqb_neq; eapply H; left; reflexivity).
  rewrite E. f_equal. apply IH. intros k' v' Hin. eapply H; right; exact Hin.
Qed.

Lemma distinct_keys_before (V : Type) (acc : list (str * V)) (k : str) (v : V)
      (r : list (str * V)) :
  distinct_keys (acc ++ (k, v) :: r) = true ->
  forall k' v', In (k', v') acc -> k' <> k.
Proof.
  induction acc as [|[k0 v0] acc IH]; intros H k' v' Hin; [contradiction|].
  cbn [app distinct_keys] in H. apply andb_true_iff in H. destruct H as [H1 H2].
  destruct Hin as [E | Hin].
  - injection E as <- <-. intros ->.
    apply (fresh_key_in _ _ _ H1 k v); [|reflexivity].
    apply in_or_app. right. left. reflexivity.
  - eapply IH; eassumption.
Qed.

Lemma dict_fold_distinct (V : Type) (d : list (str * V)) :
  forall acc,
    distinct_keys (acc ++ d) = true ->
    fold_left (fun a kv => dict_set (fst kv) (snd kv) a) d acc = acc ++ d.
Proof.
  induction d as [|[k v] r IH]; intros acc H; cbn [fold_left fst snd].
  - symmetry. apply app_nil_r.
  - rewrite (dict_set_new _ k v acc (distinct_keys_before _ acc k v r H)).
    rewrite IH; rewrite <- app_assoc; [reflexivity | exact H].
Qed.

(** A dict built from items with distinct keys keeps them all, in order. *)
Lemma dict_of_pairs_distinct (V : Type) (d : list (str * V)) :
  distinct_keys d = true -> dict_of_pairs d = d.
Proof. intros H. unfold dict_of_pairs. apply (dict_fold_distinct V d [] H). Qed.

Section RoundTrip.
Variable float_repr : str -> str.
Variable indent : option nat.

Let enc := encode float_repr indent.
Let pair_text (level : nat) (kv : str * value) : str :=
  let (k, x) := kv in encode_basestring k ++ lit ": " ++ enc level x.
Let sep (level : nat) : str := item_separator indent ++ newline_indent indent level.

Lemma encode_list_cons (level : nat) (x : value) (xs : list value) :
  enc level (VList (x :: xs))
  = 91%N :: newline_indent indent (S level)
      ++ (enc (S level) x ++ flat_map (fun q => sep (S level) ++ q) (map (enc (S level)) xs))
      ++ newline_indent indent level ++ [93%N].
Proof. reflexivity. Qed.

Lemma encode_dict_cons (level : nat) (kv : str * value) (d : list (str * value)) :
  enc level (VDict (kv :: d))
  = 123%N :: newline_indent indent (S level)
      ++ (pair_text (S level) kv
            ++ flat_map (fun q => sep (S level) ++ q) (map (pair_text (S level)) d))
      ++ newline_indent indent level ++ [125%N].
Proof. destruct kv. reflexivity. Qed.

(** A printed plain value starts with a character that is not blank and
    closes nothing. *)
Lemma encode_head (level : nat) (v : value) :
  plain v = true ->
  exists c t,
    enc level v = c :: t /\
    is_ws c = false /\ char_eqb c 93 = false /\ char_eqb c 65279 = false.
Proof.
  intros Hp. destruct v as [| [|] | z | tok | s | [|x l] | [|kv d]];
    try discriminate Hp;
    try (eexists; eexists; split; [reflexivity | repeat split; reflexivity]).
  - destruct (match_number_printed z [] eq_refl) as [_ [c [t [E Hd]]]].
    destruct (digit_or_minus c Hd) as (_ & _ & _ & _ & _ & _ & D7 & D8 & D9).
    exists c, t. repeat split; assumption.
Qed.

Lemma number_stops_closing (level : nat) (c : char) (rest : str) :
  c = 93%N \/ c = 125%N ->
  number_stops (newline_indent indent level ++ c :: rest) = true.
Proof.
  intros H. apply number_stops_newline. destruct H as [-> | ->]; reflexivity.
Qed.

Lemma number_stops_sep (level : nat) (s : str) :
  number_stops (item_separator indent ++ newline_indent indent level ++ s) = true.
Proof. destruct indent; reflexivity. Qed.

(** The array loop reads the printed items of a list up to the bracket. *)
Lemma array_loop_printed (level : nat) (xs : list value) :
  forall (x : value) (vals : list value) (fuel : nat) (rest : str),
    reads_back float_repr indent x -> plain x = true ->
    Forall (reads_back float_repr indent) xs -> forallb plain xs = true ->
    (items_weight (x :: xs) <= fuel)%nat ->
    array_loop fuel vals
      (enc (S level) x
         ++ flat_map (fun q => sep (S level) ++ q) (map (enc (S level)) xs)
         ++ newline_indent indent level ++ (93%N : char) :: rest)
    = Scanned (VList (vals ++ x :: xs)) rest.
Proof.
  pose proof number_stops_sep as Nsep.
  pose proof encode_head as Head.
  unfold enc, sep in *.
  induction xs as [|y ys IH]; intros x vals fuel rest Hx Px Hxs Pxs Hf;
    (destruct fuel as [|fuel]; [cbn in Hf; lia|]);
    cbn [items_weight fold_right] in Hf; cbn [array_loop].
  - cbn [map flat_map app].
    rewrite (Hx (S level) fuel _ ltac:(lia)
               (number_stops_closing level 93 rest (or_introl eq_refl))).
    rewrite skip_ws_newline. cbn [skip_ws]. change (is_ws 93) with false. cbv iota.
    change (char_eqb 93 93) with true. cbv iota. reflexivity.
  - cbn [map flat_map]. rewrite <- !app_assoc.
    rewrite (Hx (S level) fuel _ ltac:(lia) (Nsep (S level) _)).
    destruct (separator_next indent (S level)
                (encode float_repr indent (S level) y
                   ++ flat_map
                        (fun q => (item_separator indent
                                     ++ newline_indent indent (S level)) ++ q)
                        (map (encode float_repr indent (S level)) ys)
                   ++ newline_indent indent level ++ (93%N : char) :: rest)) as [r [Er Sr]].
    rewrite Er.
    cbn [skip_ws]. change (is_ws 44) with false. cbv iota.
    change (char_eqb 44 93) with false. change (char_eqb 44 44) with true. cbv iota.
    rewrite Sr.
    cbn [forallb] in Pxs. apply andb_true_iff in Pxs. destruct Pxs as [Py Pys].
    inversion Hxs as [|? ? Hy Hys]; subst.
    destruct (Head (S level) y Py) as [c [t [Ec [Wc _]]]].
    rewrite Ec. cbn [app]. rewrite (skip_ws_stop c _ Wc).
    rewrite app_comm_cons, <- Ec.
    rewrite (IH y (vals ++ [x]) fuel rest Hy Py Hys Pys).
    + rewrite <- app_assoc. reflexivity.
    + cbn [items_weight fold_right]. unfold items_weight in Hf. lia.
Qed.

Lemma pair_text_shape (level : nat) (k : str) (x : value) (tail : str) :
  pair_text level (k, x) ++ tail
  = dquote :: flat_map escape_char k ++ dquote :: 58%N :: 32%N :: enc level x ++ tail.
Proof.
  unfold pair_text, encode_basestring. rewrite <- !app_assoc. reflexivity.
Qed.

(** The object loop reads the printed items of a dict up to the brace. *)
Lemma object_loop_printed (level : nat) (d : list (str * value)) :
  forall (kv : str * value) (pairs : list (str * value)) (fuel : nat) (rest : str),
    reads_back float_repr indent (snd kv) -> plain (snd kv) = true ->
    Forall (fun kv : str * value => reads_back float_repr indent (snd kv)) d ->
    forallb (fun kv : str * value => let (_, x) := kv in plain x) d = true ->
    (pairs_weight (kv :: d) <= fuel)%nat ->
    object_loop fuel pairs
      (pair_text (S level) kv
         ++ flat_map (fun q => sep (S level) ++ q) (map (pair_text (S level)) d)
         ++ newline_indent indent level ++ (125%N : char) :: rest)
    = Scanned (VDict (dict_of_pairs (pairs ++ kv :: d))) rest.
Proof.
  pose proof number_stops_sep as Nsep.
  pose proof encode_head as Head.
  pose proof pair_text_shape as Shape.
  unfold sep in *.
  induction d as [|[k' y] d' IH]; intros [k x] pairs fuel rest Hx Px Hd Pd Hf;
    cbn [snd] in Hx, Px;
    (destruct fuel as [|fuel]; [cbn in Hf; lia|]);
    cbn [pairs_weight fold_right] in Hf;
    rewrite Shape; cbn [object_loop];
    change (char_eqb dquote dquote) with true; cbv iota;
    rewrite scanstring_encoded; cbn [app skip_ws];
    change (is_ws 58) with false; cbv iota;
    change (char_eqb 58 58) with true; cbv iota;
    rewrite (skip_ws_spaces 1 _ : skip_ws (32%N :: _) = _);
    (destruct (Head (S level) x Px) as [c [t [Ec [Wc _]]]]);
    unfold enc in *; rewrite Ec; cbn [app]; rewrite (skip_ws_stop c _ Wc);
    rewrite app_comm_cons, <- Ec.
  - cbn [map flat_map app].
    rewrite (Hx (S level) fuel _ ltac:(lia)
               (number_stops_closing level 125 rest (or_intror eq_refl))).
    rewrite skip_ws_newline. cbn [skip_ws]. change (is_ws 125) with false. cbv iota.
    change (char_eqb 125 125) with true. cbv iota. reflexivity.
  - cbn [map flat_map]. rewrite <- !app_assoc.
    rewrite (Hx (S level) fuel _ ltac:(lia) (Nsep (S level) _)).
    destruct (separator_next indent (S level)
                (pair_text (S level) (k', y)
                   ++ flat_map
                        (fun q => (item_separator indent
                                     ++ newline_indent indent (S level)) ++ q)
                        (map (pair_text (S level)) d')
                   ++ newline_indent indent level ++ (125%N : char) :: rest))
      as [r [Er Sr]].
    rewrite Er.
    cbn [skip_ws]. change (is_ws 44) with false. cbv iota.
    change (char_eqb 44 125) with false. change (char_eqb 44 44) with true. cbv iota.
    rewrite Sr.
    cbn [forallb] in Pd. apply andb_true_iff in Pd. destruct Pd as [Py Pd'].
    inversion Hd as [|? ? Hy Hd']; subst. cbn [snd] in Hy.
    rewrite (Shape (S level) k' y). rewrite (skip_ws_stop dquote _ eq_refl).
    rewrite <- (Shape (S level) k' y).
    rewrite (IH (k', y) (pairs ++ [(k, x)]) fuel rest Hy Py Hd' Pd').
    + rewrite <- app_assoc. reflexivity.
    + cbn [pairs_weight fold_right]. unfold pairs_weight in Hf. lia.
Qed.

Lemma bracket_assoc (o c : char) (a p f b rest : str) :
  (o :: a ++ (p ++ f) ++ b ++ [c]) ++ rest = o :: a ++ p ++ f ++ b ++ c :: rest.
Proof. cbn [app]. rewrite <- !app_assoc. reflexivity. Qed.

(** Every plain value reads back. *)
Lemma plain_reads_back (v : value) : plain v = true -> reads_back float_repr indent v.
Proof.
  pose proof encode_head as Head.
  pose proof encode_list_cons as EL.
  pose proof encode_dict_cons as ED.
  pose proof array_loop_printed as AL.
  pose proof object_loop_printed as OL.
  unfold pair_text, sep, enc in *.
  induction v as [| b | z | tok | s | l IHl | d IHd] using value_ind_nested;
    intros Hp level fuel rest Hf Hr;
    (destruct fuel as [|fuel]; [cbn in Hf; lia|]).
  - reflexivity.
  - destruct b; reflexivity.
  - apply scan_once_int. exact Hr.
  - discriminate Hp.
  - cbn [encode]. unfold encode_basestring. rewrite <- !app_assoc.
    cbn [app scan_once]. change (char_eqb dquote dquote) with true. cbv iota.
    rewrite scanstring_encoded. reflexivity.
  - destruct l as [|x xs]; [reflexivity|].
    cbn [plain forallb] in Hp. apply andb_true_iff in Hp. destruct Hp as [Px Pxs].
    inversion IHl as [|? ? Hx Hxs]; subst.
    assert (Rxs : Forall (reads_back float_repr indent) xs).
    { rewrite forallb_forall in Pxs. rewrite Forall_forall in *.
      intros y Hy. apply Hxs; [exact Hy | apply Pxs; exact Hy]. }
    rewrite EL. cbn [app]. rewrite <- !app_assoc. cbn [app scan_once].
    change (char_eqb 91 dquote) with false. change (char_eqb 91 123) with false.
    change (char_eqb 91 91) with true. cbv iota.
    rewrite skip_ws_newline.
    destruct (Head (S level) x Px) as [c [t [Ec [Wc [Bc _]]]]].
    rewrite Ec. cbn [app]. rewrite (skip_ws_stop c _ Wc). rewrite Bc.
    rewrite app_comm_cons, <- Ec.
    rewrite (AL level xs x [] fuel rest (Hx Px) Px Rxs Pxs); [reflexivity|].
    cbn [weight] in Hf. fold (items_weight (x :: xs)) in Hf. lia.
  - destruct d as [|[k x] d']; [reflexivity|].
    cbn [plain distinct_keys forallb] in Hp.
    apply andb_true_iff in Hp. destruct Hp as [Hk Hp].
    apply andb_true_iff in Hp. destruct Hp as [Px Pd].
    inversion IHd as [|? ? Hx Hd]; subst. cbn [snd] in Hx.
    assert (Rd : Forall (fun kv : str * value => reads_back float_repr indent (snd kv)) d').
    { rewrite forallb_forall in Pd. rewrite Forall_forall in *.
      intros [k' y] Hy. cbn [snd]. apply (Hd (k', y) Hy). apply (Pd (k', y) Hy). }
    rewrite ED, bracket_assoc. cbn [scan_once].
    change (char_eqb 123 dquote) with false. change (char_eqb 123 123) with true.
    cbv iota.
    rewrite skip_ws_newline.
    pose proof (pair_text_shape (S level) k x) as Shape.
    unfold pair_text, enc in Shape.
    rewrite Shape. rewrite (skip_ws_stop dquote _ eq_refl).
    change (char_eqb dquote 125) with false. cbv iota.
    rewrite <- Shape.
    rewrite (OL level d' (k, x) [] fuel rest (Hx Px) Px Rd Pd).
    + cbn [app]. rewrite (dict_of_pairs_distinct value ((k, x) :: d') Hk). reflexivity.
    + cbn [weight] in Hf. fold (pairs_weight ((k, x) :: d')) in Hf. lia.
Qed.

Lemma sep_length (level : nat) : (1 <= length (sep level))%nat.
Proof. unfold sep. destruct indent; cbn; lia. Qed.

Lemma joined_length (A : Type) (text : A -> str) (wt : A -> nat) (xs : list A) :
  forall x level,
    (wt x <= length (text x))%nat ->
    Forall (fun y => wt y <= length (text y))%nat xs ->
    (fold_right (fun y n => S (wt y + n)) 0 (x :: xs)
     <= S (length (text x ++ flat_map (fun q => sep level ++ q) (map text xs))))%nat.
Proof.
  induction xs as [|y ys IH]; intros x level Hx Hxs; cbn [fold_right map flat_map].
  - rewrite app_nil_r. lia.
  - inversion Hxs as [|? ? Hy Hys]; subst.
    specialize (IH y level Hy Hys). cbn [fold_right] in IH.
    pose proof (sep_length level).
    rewrite !length_app in *. lia.
Qed.

(** The budget of a plain value is within the length of its printed form. *)
Lemma weight_le_length (v : value) :
  plain v = true -> forall level, (weight v <= length (enc level v))%nat.
Proof.
  pose proof encode_head as Head.
  pose proof encode_list_cons as EL.
  pose proof encode_dict_cons as ED.
  pose proof joined_length as JL.
  unfold pair_text, sep, enc in *.
  induction v as [| b | z | tok | s | l IHl | d IHd] using value_ind_nested;
    intros Hp level.
  - cbn; lia.
  - destruct b; cbn; lia.
  - destruct (Head level (VInt z) eq_refl) as [c [t [E _]]]. rewrite E. cbn; lia.
  - discriminate Hp.
  - cbn [encode weight]. unfold encode_basestring. rewrite !length_app. cbn; lia.
  - destruct l as [|x xs]; [cbn; lia|].
    cbn [plain forallb] in Hp. apply andb_true_iff in Hp. destruct Hp as [Px Pxs].
    inversion IHl as [|? ? Hx Hxs]; subst.
    rewrite EL. cbn [weight length]. rewrite !length_app.
    pose proof (JL value (encode float_repr indent (S level)) weight xs x (S level)
                   (Hx Px (S level))) as J.
    rewrite length_app in J.
    assert (F : Forall (fun y => weight y <= length (encode float_repr indent (S level) y))%nat
                       xs).
    { rewrite forallb_forall in Pxs. rewrite Forall_forall in *.
      intros y Hy. apply Hxs; [exact Hy | apply Pxs; exact Hy]. }
    specialize (J F). cbn [fold_right length] in *. lia.
  - destruct d as [|[k x] d']; [cbn; lia|].
    cbn [plain distinct_keys forallb] in Hp.
    apply andb_true_iff in Hp. destruct Hp as [_ Hp].
    apply andb_true_iff in Hp. destruct Hp as [Px Pd].
    inversion IHd as [|? ? Hx Hd]; subst. cbn [snd] in Hx.
    rewrite ED. cbn [weight length]. rewrite !length_app.
    pose proof (JL (str * value)%type
                   (fun kv : str * value =>
                      let (k, x) := kv in
                      encode_basestring k ++ lit ": " ++ encode float_repr indent (S level) x)
                   (fun kv : str * value => let (_, x) := kv in weight x)
                   d' (k, x) (S level)) as J.
    cbv beta iota in J. rewrite !length_app in J.
    specialize (J ltac:(specialize (Hx Px (S level)); lia)).
    assert (F : Forall (fun y : str * value =>
                          (let (_, x) := y in weight x)
                          <= length (let (k, x) := y in
                                     encode_basestring k ++ lit ": "
                                       ++ encode float_repr indent (S level) x))%nat d').
    { rewrite forallb_forall in Pd. rewrite Forall_forall in *.
      intros [k' y] Hy. rewrite !length_app.
      specialize (Hd (k', y) Hy (Pd (k', y) Hy) (S level)). cbn [snd] in Hd. lia. }
    specialize (J F). cbn [fold_right length] in *. rewrite ?length_app in *.
    assert (Q : fold_right (fun (y : str * value) (n : nat) =>
                              S ((let (_, x) := y in weight x) + n)) 0%nat d'
                = fold_right (fun (kv : str * value) (n : nat) =>
                                let (_, x0) := kv in S (weight x0 + n)) 0%nat d').
    { clear. induction d' as [|[k y] d' IH]; cbn [fold_right];
        [reflexivity | rewrite IH; reflexivity]. }
    rewrite Q in J. lia.
Qed.

(** Printing a plain value and decoding the text gives the value back. *)
Lemma loads_encode (v : value) :
  plain v = true -> loads (enc 0 v) = inl v.
Proof.
  intros Hp. unfold loads.
  pose proof (encode_head 0 v Hp) as [c [t [E [Wc [_ Bc]]]]].
  pose proof (plain_reads_back v Hp 0%nat (S (2 * length (enc 0 v))) []
                ltac:(pose proof (weight_le_length v Hp 0%nat); lia) eq_refl) as R.
  rewrite app_nil_r in R.
  unfold enc in *. rewrite E in *.
  cbn [startswith].
  replace (char_eqb 65279 c) with false
    by (symmetry; unfold char_eqb in *; rewrite N.eqb_sym; exact Bc).
  cbn [andb]. rewrite (skip_ws_stop c t Wc). rewrite R. reflexivity.
Qed.
End RoundTrip.




Lemma feed_item_plain (v : value) : is_feed_item v -> plain v = true.
Proof. intros [t [l [p ->]]]. reflexivity. Qed.

Lemma feed_items_plain (l : list value) :
  Forall is_feed_item l -> forallb plain l = true.
Proof.
  intros H. apply forallb_forall. intros x Hx.
  apply feed_item_plain. rewrite Forall_forall in H. exact (H x Hx).
Qed.

(** The body of a well-formed answer decodes to a value that carries the
    text. *)
Lemma service_body_decodes (out : str) :
  exists data, loads (Samples.service_body out) = inl data
               /\ first_text data = Some (VStr out).
Proof.
  eexists. split.
  - unfold Samples.service_body, dumps. apply loads_encode. reflexivity.
  - reflexivity.
Qed.


(** X16. The prompt is the fixed head, the date, the schema, the input
    signals and the fixed tail; the input signals are JSON text that decodes
    to the dict of the date, the trends and the news handed in, whenever
    these are feed items. *)
Theorem build_prompt_signals_read_back (float_repr : str -> str)
        (trends_daily news : list value) (w : world) (h : list event) :
  Forall is_feed_item trends_daily ->
  Forall is_feed_item news ->
  exists signals : str,
    build_prompt float_repr trends_daily news w h
    = (Returns (prompt_head ++ strftime_Ymd (clock w) ++ prompt_schema
                  ++ signals ++ prompt_tail), h)
    /\ loads signals
       = inl (VDict [ (lit "date", VStr (strftime_Ymd (clock w)));
                      (lit "google_trends_lk_daily", VList trends_daily);
                      (lit "google_news_lk", VList news) ]).
Proof.
  intros Ht Hn. eexists. split; [reflexivity|].
  apply loads_encode.
  cbn [plain forallb]. rewrite (feed_items_plain _ Ht), (feed_items_plain _ Hn).
  reflexivity.
Qed.


(** X18. A well-formed answer of the service gives its text back: when the
    key is set and the service answers, with a status outside 400..599, a
    body that is the JSON text of one candidate whose content has one part
    with the text [out], the generation call returns [out], whatever
    characters it holds. *)
Theorem gemini_generate_well_formed (prompt : str) (w : world) (h : list event)
        (api_key out : str) (r : response) :
  dict_get (lit "GEMINI_API_KEY") (environ w) = Some api_key ->
  requests_post w (h ++ [EvGenerate prompt])
                (generate_url (chosen_model w) api_key) (generate_payload prompt) 60
  = Returns r ->
  ((400 <=? status_code r)%Z && (status_code r <? 600)%Z = false) ->
  text r = Samples.service_body out ->
  gemini_generate prompt w h
  = (Returns (VStr out), h ++ [EvGenerate prompt; EvGenerated (VStr out)]).
Proof.
  intros Hk Hp Hs Ht.
  destruct (service_body_decodes out) as [data [Hl Hf]].
  rewrite <- Ht in Hl.
  exact (gemini_generate_decoded prompt w h (VStr out) api_key r data Hk Hp Hs Hl Hf).
Qed.


(** *** What follows a report *)





(** *** The port *)

Lemma lstrip_stop (c : char) (r : str) : is_space c = false -> lstrip (c :: r) = c :: r.
Proof. intros H. cbn [lstrip]. rewrite H. reflexivity. Qed.

(** Text without blanks is left as it is by [strip]. *)
Lemma strip_no_space (s : str) :
  forallb (fun c => negb (is_space c)) s = true -> strip s = s.
Proof.
  intros H. rewrite forallb_forall in H.
  assert (L : forall t : str, (forall c, In c t -> negb (is_space c) = true) -> lstrip t = t).
  { intros [|c r] Ht; [reflexivity|].
    apply lstrip_stop. apply negb_true_iff. apply Ht. left. reflexivity. }
  unfold strip. rewrite (L s H).
  rewrite (L (rev s)); [apply rev_involutive|].
  intros c Hc. apply H. apply in_rev. exact Hc.
Qed.

Lemma uint_digits_no_space (d : Decimal.uint) :
  forallb (fun c => negb (is_space c)) (lit (NilEmpty.string_of_uint d)) = true.
Proof.
  induction d;
    cbn [lit NilEmpty.string_of_uint list_ascii_of_string map forallb];
    try reflexivity;
    (apply andb_true_intro; split; [reflexivity | exact IHd]).
Qed.

(** [int] reads the digits of a numeral. *)
Lemma int_digits_printed (d : Decimal.uint) :
  forall (acc : Z) (b : bool),
    d <> Decimal.Nil \/ b = true ->
    int_digits acc b (lit (NilEmpty.string_of_uint d))
    = Some (fold_left (fun a c => (a * 10 + (Z.of_N c - 48))%Z)
                      (lit (NilEmpty.string_of_uint d)) acc).
Proof.
  induction d; intros acc b H;
    cbn [lit NilEmpty.string_of_uint list_ascii_of_string map int_digits fold_left];
    try (change (is_digit (code _)) with true; cbv iota;
         apply IHd; right; reflexivity).
  destruct H as [H | ->]; [contradiction | reflexivity].
Qed.

(** [int] gives back the integer that [str] printed. *)
Lemma int_str_of_Z (z : Z) : int (str_of_Z z) = Returns z.
Proof.
  destruct z as [|p|p].
  - reflexivity.
  - destruct (positive_token p [] eq_refl) as [_ [_ [V [c [t [E D]]]]]].
    assert (S : str_of_Z (Zpos p) = lit (NilEmpty.string_of_uint (Pos.to_uint p))).
    { unfold str_of_Z. cbn [Z.to_int NilZero.string_of_int NilZero.string_of_uint].
      pose proof (DecimalPos.Unsigned.to_uint_nonnil p).
      destruct (Pos.to_uint p); [contradiction | reflexivity ..]. }
    rewrite S. unfold int.
    rewrite (strip_no_space _ (uint_digits_no_space (Pos.to_uint p))).
    pose proof (int_digits_printed (Pos.to_uint p) 0 false
                  (or_introl (DecimalPos.Unsigned.to_uint_nonnil p))) as I.
    fold (digits_value (lit (NilEmpty.string_of_uint (Pos.to_uint p)))) in I.
    rewrite V in I. rewrite E in *.
    assert (R : (48 <= c <= 57)%N).
    { unfold is_digit in D. apply andb_true_iff in D. destruct D as [D1 D2].
      apply N.leb_le in D1, D2. lia. }
    replace (char_eqb c 45) with false
      by (symmetry; unfold char_eqb; apply N.eqb_neq; lia).
    replace (char_eqb c 43) with false
      by (symmetry; unfold char_eqb; apply N.eqb_neq; lia).
    rewrite I. reflexivity.
  - destruct (positive_token p [] eq_refl) as [_ [_ [V _]]].
    assert (S : str_of_Z (Zneg p)
                = (45%N : char) :: lit (NilEmpty.string_of_uint (Pos.to_uint p))).
    { unfold str_of_Z. cbn [Z.to_int NilZero.string_of_int NilZero.string_of_uint].
      pose proof (DecimalPos.Unsigned.to_uint_nonnil p).
      destruct (Pos.to_uint p); [contradiction | reflexivity ..]. }
    rewrite S. unfold int.
    rewrite strip_no_space
      by (cbn [forallb]; apply andb_true_intro; split;
          [reflexivity | apply uint_digits_no_space]).
    pose proof (int_digits_printed (Pos.to_uint p) 0 false
                  (or_introl (DecimalPos.Unsigned.to_uint_nonnil p))) as I.
    fold (digits_value (lit (NilEmpty.string_of_uint (Pos.to_uint p)))) in I.
    rewrite V in I.
    change (char_eqb 45 45) with true. cbv iota.
    rewrite I. reflexivity.
Qed.

(** X21. The port of a delivery is the number SMTP_PORT spells: in a call of
    the Notifier that returns, the mail went to port 587 when SMTP_PORT is
    not set, and to port [p] when SMTP_PORT is the decimal text of [p]. *)
Theorem send_email_port (subject body : value) (w : world) (h h' : list event) :
  send_email subject body w h = (Returns tt, h') ->
  exists m,
    h' = h ++ [EvSendEmail subject body; EvDelivered m] /\
    (dict_get (lit "SMTP_PORT") (environ w) = None -> smtp_port m = 587%Z) /\
    (forall p : Z,
        dict_get (lit "SMTP_PORT") (environ w) = Some (str_of_Z p) -> smtp_port m = p).
Proof.
  intros H.
  destruct (send_email_returned subject body w h h' H)
    as [m [Eh [[_ [Hp _]] _]]].
  exists m. split; [exact Eh|]. split.
  - intros E. rewrite E in Hp.
    change (int (lit "587")) with (@Returns Z 587%Z) in Hp.
    injection Hp as <-. reflexivity.
  - intros p E. rewrite E, int_str_of_Z in Hp.
    injection Hp as <-. reflexivity.
Qed.

(** X22. An answer of the service that is not the expected one makes the
    generation call raise, with nothing recorded after the call entry: a body
    that is not JSON raises the decoder's error, a JSON object without
    candidates raises KeyError on that key, and an empty list of candidates
    raises IndexError. *)
Theorem gemini_generate_malformed_answer (prompt : str) (w : world) (h : list event)
        (api_key : str) (r : response) :
  dict_get (lit "GEMINI_API_KEY") (environ w) = Some api_key ->
  requests_post w (h ++ [EvGenerate prompt])
                (generate_url (chosen_model w) api_key) (generate_payload prompt) 60
  = Returns r ->
  ((400 <=? status_code r)%Z && (status_code r <? 600)%Z = false) ->
  (forall e, loads (text r) = inr e ->
             gemini_generate prompt w h
             = (Raises (JSONDecodeError e), h ++ [EvGenerate prompt]))
  /\ (forall d, loads (text r) = inl (VDict d) ->
                dict_get (lit "candidates") d = None ->
                gemini_generate prompt w h
                = (Raises (KeyError (VStr (lit "candidates"))), h ++ [EvGenerate prompt]))
  /\ (forall d, loads (text r) = inl (VDict d) ->
                dict_get (lit "candidates") d = Some (VList []) ->
                gemini_generate prompt w h
                = (Raises IndexError, h ++ [EvGenerate prompt])).
Proof.
  unfold gemini_generate, raise_for_status, response_json, chosen_model,
    bind, log, environ_item, environ_get, lift, ret, raise.
  intros Hk Hp Hs. rewrite Hk.
  destruct (dict_get (lit "GEMINI_MODEL") (environ w));
    rewrite Hp, Hs;
    (split; [intros e Hl; rewrite Hl; reflexivity|]);
    (split; intros d Hl Hc; rewrite Hl; unfold getitem; rewrite Hc; reflexivity).
Qed.


(** * The properties at sample inputs *)

(** A character that a literal does not hold. *)
Ltac absent :=
  let H := fresh in
  intros H; vm_compute in H;
  repeat (destruct H as [H | H]; [discriminate H|]); exact H.

Lemma run_feed_failure_aborts_witness :
  feedparser_parse raising_world [] GOOGLE_TRENDS_DAILY_LK
  = Raises (Foreign (lit "connection reset")) /\
  run float_text raising_world = (Raises (Foreign (lit "connection reset")), []).
Proof.
  split; [reflexivity|].
  apply run_feed_failure_aborts. left. reflexivity.
Defined.

Lemma run_returns_only_after_delivery_witness :
  let m := sample_mail 587 (lit "agent@example.org")
                       (VStr (lit "Week 11")) (VStr (lit "Follow cricket.")) in
  fst (run float_text (world_of [good_output])) = Returns tt /\
  delivered (snd (run float_text (world_of [good_output]))) = [m] /\
  send_calls (snd (run float_text (world_of [good_output])))
  = [(VStr (lit "Week 11"), VStr (lit "Follow cricket."))].
Proof.
  cbv zeta.
  assert (H : fst (run float_text (world_of [good_output])) = Returns tt)
    by (vm_compute; reflexivity).
  split; [exact H|].
  destruct (run_returns_only_after_delivery float_text (world_of [good_output]) H)
    as [m [Hd Hs]].
  assert (D : delivered (snd (run float_text (world_of [good_output])))
              = [sample_mail 587 (lit "agent@example.org")
                             (VStr (lit "Week 11")) (VStr (lit "Follow cricket."))])
    by (vm_compute; reflexivity).
  split; [exact D|].
  rewrite D in Hd. injection Hd as <-. exact Hs.
Defined.

Lemma run_output_not_text_witness :
  let w := world_with environ_full number_service accepting_smtp in
  generated (snd (run float_text w)) = [VInt 5] /\
  fst (run float_text w) = Raises AttributeError /\
  send_calls (snd (run float_text w)) = [].
Proof.
  cbv zeta.
  assert (G : generated (snd (run float_text
                                 (world_with environ_full number_service accepting_smtp)))
              = [VInt 5]) by (vm_compute; reflexivity).
  split; [exact G|].
  apply (run_output_not_text float_text _ (VInt 5)).
  - rewrite G. discriminate.
  - rewrite G. reflexivity.
  - intros t. discriminate.
Defined.

Lemma run_notifies_when_generated_witness :
  let h := snd (run float_text (world_of [good_output])) in
  ~ generation_failed h /\
  last (generated h) VNone = VStr good_output /\
  exists subject body, send_calls h = [(subject, body)].
Proof.
  cbv zeta.
  assert (G : generated (snd (run float_text (world_of [good_output])))
              = [VStr good_output]) by (vm_compute; reflexivity).
  assert (F : ~ generation_failed (snd (run float_text (world_of [good_output])))).
  { unfold generation_failed. vm_compute. lia. }
  split; [exact F|]. split; [rewrite G; reflexivity|].
  apply (run_notifies_when_generated float_text _ good_output).
  - exact F.
  - rewrite G. discriminate.
  - rewrite G. reflexivity.
Defined.

Lemma run_report_mail_fields_witness :
  let report := VDict [(lit "summary", VStr (lit "quiet week")); (lit "trends", VList [])] in
  safe_extract_json bare_output = Success report /\
  send_calls (snd (run float_text (world_of [bare_output])))
  = [(VStr default_subject, VStr (dumps_indent float_text 2 report))].
Proof.
  cbv zeta.
  assert (S : safe_extract_json bare_output
              = Success (VDict [(lit "summary", VStr (lit "quiet week"));
                                (lit "trends", VList [])]))
    by (vm_compute; reflexivity).
  assert (L : last (generated (snd (run float_text (world_of [bare_output])))) VNone
              = VStr bare_output) by (vm_compute; reflexivity).
  split; [exact S|].
  rewrite (run_report_mail_fields float_text _ bare_output _ L S). reflexivity.
Defined.

Lemma run_missing_api_key_witness :
  let w := world_with environ_no_key (service [good_output]) accepting_smtp in
  dict_get (lit "GEMINI_API_KEY") (environ w) = None /\
  exists p,
    run float_text w = (Raises (KeyError (VStr (lit "GEMINI_API_KEY"))), [EvGenerate p]).
Proof.
  cbv zeta. split; [reflexivity|].
  apply (run_missing_api_key float_text _ healthy_feed healthy_feed); reflexivity.
Defined.

Lemma gemini_generate_returns_iff_witness :
  gemini_generate (lit "p") (world_of [good_output]) []
  = (Returns (VStr good_output), [EvGenerate (lit "p"); EvGenerated (VStr good_output)]).
Proof.
  apply (proj2 (gemini_generate_returns_iff (lit "p") (world_of [good_output]) []
                  (VStr good_output))).
  exists (lit "k"), {| status_code := 200; text := service_body good_output |}.
  eexists.
  split; [reflexivity|]. split; [reflexivity|]. split; [reflexivity|].
  split; [vm_compute; reflexivity | reflexivity].
Defined.

Lemma send_email_returns_iff_witness :
  let m := sample_mail 587 (lit "agent@example.org") (VStr (lit "s")) (VStr (lit "b")) in
  send_email (VStr (lit "s")) (VStr (lit "b")) (world_of []) []
  = (Returns tt, [EvSendEmail (VStr (lit "s")) (VStr (lit "b")); EvDelivered m]).
Proof.
  cbv zeta.
  apply (proj2 (send_email_returns_iff (VStr (lit "s")) (VStr (lit "b")) (world_of []) [] _)).
  exists (sample_mail 587 (lit "agent@example.org") (VStr (lit "s")) (VStr (lit "b"))).
  unfold mail_settings. repeat split; reflexivity.
Defined.

Lemma send_email_bad_settings_witness :
  (dict_get (lit "TO_EMAIL") environ_no_recipient = None /\
   exists e,
     send_email VNone VNone (world_with environ_no_recipient (service []) accepting_smtp) []
     = (Raises e, [EvSendEmail VNone VNone]) /\
     (e = ValueError \/
      exists name, In name required_mail_settings /\ e = KeyError (VStr name))) /\
  (int (lit "smtp") = Raises ValueError /\
   exists e,
     send_email VNone VNone (world_with environ_bad_port (service []) accepting_smtp) []
     = (Raises e, [EvSendEmail VNone VNone]) /\
     (e = ValueError \/
      exists name, In name required_mail_settings /\ e = KeyError (VStr name))).
Proof.
  split; (split; [reflexivity|]).
  - apply (send_email_bad_settings VNone VNone
             (world_with environ_no_recipient (service []) accepting_smtp) []).
    left. exists (lit "TO_EMAIL"). split; [|reflexivity].
    right. right. right. left. reflexivity.
  - apply (send_email_bad_settings VNone VNone
             (world_with environ_bad_port (service []) accepting_smtp) []).
    right. reflexivity.
Defined.

Lemma fetch_rss_negative_limit_witness :
  fetch_rss GOOGLE_NEWS_LK (-1) (world_of []) []
  = (Returns [feed_item entry1; feed_item entry2], []).
Proof.
  apply (fetch_rss_negative_limit GOOGLE_NEWS_LK (-1) (world_of []) [] healthy_feed).
  - reflexivity.
  - lia.
Defined.

Lemma safe_extract_json_wrapped_witness :
  safe_extract_json (lit "Here: " ++ litq "{`a`: 1}" ++ lit " bye")
  = match safe_extract_json (litq "{`a`: 1}") with
    | Success report => Success report
    | Failure _ error => Failure (lit "Here: " ++ litq "{`a`: 1}" ++ lit " bye") error
    end.
Proof.
  apply (safe_extract_json_wrapped (lit "Here: ") (litq "{`a`: 1}") (lit " bye")).
  - absent.
  - absent.
  - left. reflexivity.
  - apply (nth_error_In _ 7). reflexivity.
Defined.

Lemma no_json_detected_iff_witness :
  safe_extract_json bad_output = Failure bad_output (lit "No JSON detected").
Proof.
  apply (proj2 (no_json_detected_iff bad_output)). left. absent.
Defined.


Lemma build_prompt_signals_read_back_witness :
  exists signals : str,
    build_prompt float_text [feed_item entry1] [] (world_of []) []
    = (Returns (prompt_head ++ strftime_Ymd monday ++ prompt_schema
                  ++ signals ++ prompt_tail), [])
    /\ loads signals
       = inl (VDict [ (lit "date", VStr (strftime_Ymd monday));
                      (lit "google_trends_lk_daily", VList [feed_item entry1]);
                      (lit "google_news_lk", VList []) ]).
Proof.
  apply (build_prompt_signals_read_back float_text [feed_item entry1] [] (world_of []) []).
  - constructor; [apply feed_item_fields | constructor].
  - constructor.
Defined.


Lemma gemini_generate_well_formed_witness :
  gemini_generate (lit "p") (world_of [good_output]) []
  = (Returns (VStr good_output), [EvGenerate (lit "p"); EvGenerated (VStr good_output)]).
Proof.
  apply (gemini_generate_well_formed (lit "p") (world_of [good_output]) [] (lit "k")
           good_output {| status_code := 200; text := service_body good_output |});
    reflexivity.
Defined.



Lemma send_email_port_witness :
  let w := world_with environ_custom (service []) accepting_smtp in
  dict_get (lit "SMTP_PORT") (environ w) = Some (str_of_Z 2525) /\
  exists m,
    send_email VNone VNone w [] = (Returns tt, [EvSendEmail VNone VNone; EvDelivered m]) /\
    smtp_port m = 2525%Z.
Proof.
  cbv zeta. split; [reflexivity|].
  destruct (send_email_port VNone VNone
              (world_with environ_custom (service []) accepting_smtp) []
              [EvSendEmail VNone VNone;
               EvDelivered (sample_mail 2525 (lit "reports@example.org") VNone VNone)]
              eq_refl) as [m [E [_ P]]].
  exists m. split.
  - cbn [app] in E. injection E as <-. reflexivity.
  - apply (P 2525%Z). reflexivity.
Defined.

Lemma gemini_generate_malformed_answer_witness :
  gemini_generate (lit "p") (world_with environ_full (fixed_service (lit "<html>"))
                                        accepting_smtp) []
  = (Raises (JSONDecodeError (lit "Expecting value: line 1 column 1 (char 0)")),
     [EvGenerate (lit "p")])
  /\ gemini_generate (lit "p") (world_with environ_full (fixed_service (lit "{}"))
                                           accepting_smtp) []
     = (Raises (KeyError (VStr (lit "candidates"))), [EvGenerate (lit "p")])
  /\ gemini_generate (lit "p")
       (world_with environ_full (fixed_service (litq "{`candidates`: []}")) accepting_smtp) []
     = (Raises IndexError, [EvGenerate (lit "p")]).
Proof.
  split; [|split].
  - apply (proj1 (gemini_generate_malformed_answer (lit "p")
                    (world_with environ_full (fixed_service (lit "<html>")) accepting_smtp)
                    [] (lit "k") {| status_code := 200; text := lit "<html>" |}
                    eq_refl eq_refl eq_refl)).
    reflexivity.
  - apply (proj1 (proj2 (gemini_generate_malformed_answer (lit "p")
                    (world_with environ_full (fixed_service (lit "{}")) accepting_smtp)
                    [] (lit "k") {| status_code := 200; text := lit "{}" |}
                    eq_refl eq_refl eq_refl)) []); reflexivity.
  - apply (proj2 (proj2 (gemini_generate_malformed_answer (lit "p")
                    (world_with environ_full (fixed_service (litq "{`candidates`: []}"))
                                accepting_smtp)
                    [] (lit "k")
                    {| status_code := 200; text := litq "{`candidates`: []}" |}
                    eq_refl eq_refl eq_refl))
             [(lit "candidates", VList [])]); reflexivity.
Defined.

